(** * scenarigo: the template evaluator, the test summary and the gRPC
      status-code assertion, embedded from the Go sources.

    Sources embedded here:
    - [reporter/test_summary.go]   (module [Reporter])
    - [protocol/grpc/expect.go]    (module [Grpc])
    - [template/template.go]       (module [Template])

    Go strings are byte sequences: they are modelled by [string], whose
    characters are the bytes.  An [int] is taken to be 64 bits wide. *)

From Stdlib Require Import ZArith List String Ascii Bool Lia Floats.PrimFloat.
From stdpp Require Import base option list strings pretty gmap.

Set Warnings "-register-all".
Local Open Scope string_scope.

(** ** Characters that a string literal cannot spell *)

Definition LF : ascii := "010"%char.
Definition TAB : ascii := "009"%char.
Definition DQ : ascii := "034"%char.
Definition nl : string := String LF "".
Definition tab : string := String TAB "".
Definition dq : string := String DQ "".

(** ** The pieces of Go's [strings], [unicode/utf8] and [strconv] packages
       that the sources call *)

Module GoStrings.

(** [strings.ContainsRune(s, r)] for a one-byte rune [r]. *)
Fixpoint ContainsByte (s : string) (c : ascii) : bool :=
  match s with
  | EmptyString => false
  | String a s' => if Ascii.eqb a c then true else ContainsByte s' c
  end.

(** [strings.Split(s, sep)] for a one-byte separator: the pieces between
    the separators, always at least one piece. *)
Fixpoint Split (s : string) (sep : ascii) : list string :=
  match s with
  | EmptyString => [EmptyString]
  | String a s' =>
      if Ascii.eqb a sep then EmptyString :: Split s' sep
      else match Split s' sep with
           | [] => [String a EmptyString]
           | p :: ps => String a p :: ps
           end
  end.

(** [strings.Join(elems, sep)]. *)
Fixpoint Join (elems : list string) (sep : string) : string :=
  match elems with
  | [] => ""
  | [e] => e
  | e :: rest => e +:+ sep +:+ Join rest sep
  end.

(** [strings.Repeat(s, n)]. *)
Fixpoint Repeat (s : string) (n : nat) : string :=
  match n with
  | O => ""
  | S n' => s +:+ Repeat s n'
  end.

(** The last element of the result of [Split], which is never empty. *)
Definition last_piece (l : list string) : string := List.last l "".

(** [strings.TrimSuffix(s, "\n")]: one trailing line feed is removed. *)
Fixpoint TrimSuffixLF (s : string) : string :=
  match s with
  | EmptyString => EmptyString
  | String a EmptyString => if Ascii.eqb a LF then EmptyString else s
  | String a s' => String a (TrimSuffixLF s')
  end.

(** UTF-8 decoding as in [unicode/utf8]: the table [first] gives, for a
    leading byte, the length of the sequence and the range accepted for
    the second byte; [None] is the table's [xx]. *)
Definition first (c : N) : option (nat * N * N) :=
  (if c <? 0xC2 then None
   else if c <? 0xE0 then Some (2%nat, 0x80, 0xBF)
   else if c =? 0xE0 then Some (3%nat, 0xA0, 0xBF)
   else if c <? 0xED then Some (3%nat, 0x80, 0xBF)
   else if c =? 0xED then Some (3%nat, 0x80, 0x9F)
   else if c <? 0xF0 then Some (3%nat, 0x80, 0xBF)
   else if c =? 0xF0 then Some (4%nat, 0x90, 0xBF)
   else if c <? 0xF4 then Some (4%nat, 0x80, 0xBF)
   else if c =? 0xF4 then Some (4%nat, 0x80, 0x8F)
   else None)%N.

Definition continuation (c : N) : bool := ((0x80 <=? c) && (c <=? 0xBF))%N.

(** The number of bytes taken by the rune that starts with byte [c] and
    is followed by the bytes [rest]; an invalid or short sequence takes
    one byte (it decodes to U+FFFD). *)
Definition rune_size (c : N) (rest : list N) : nat :=
  if (c <? 0x80)%N then 1%nat
  else match first c with
       | None => 1%nat
       | Some (size, lo, hi) =>
           if (length rest <? size - 1)%nat then 1%nat
           else match rest with
                | c1 :: rest1 =>
                    if ((c1 <? lo) || (hi <? c1))%N then 1%nat
                    else if (size =? 2)%nat then 2%nat
                    else match rest1 with
                         | c2 :: rest2 =>
                             if negb (continuation c2) then 1%nat
                             else if (size =? 3)%nat then 3%nat
                             else match rest2 with
                                  | c3 :: _ =>
                                      if negb (continuation c3) then 1%nat
                                      else 4%nat
                                  | [] => 1%nat
                                  end
                         | [] => 1%nat
                         end
                | [] => 1%nat
                end
       end.

(** [skip] bytes of the current rune are still to be passed over. *)
Fixpoint rune_count_from (skip : nat) (l : list N) : nat :=
  match l with
  | [] => 0%nat
  | c :: rest =>
      match skip with
      | S k => rune_count_from k rest
      | O => S (rune_count_from (rune_size c rest - 1) rest)
      end
  end.

Fixpoint bytes_of (s : string) : list N :=
  match s with
  | EmptyString => []
  | String a s' => N_of_ascii a :: bytes_of s'
  end.

(** [len([]rune(s))]. *)
Definition RuneCount (s : string) : nat := rune_count_from 0 (bytes_of s).

End GoStrings.

Module Strconv.

Inductive NumErr := ErrSyntax | ErrRange.

Definition NumErr_msg (e : NumErr) : string :=
  match e with
  | ErrSyntax => "invalid syntax"
  | ErrRange => "value out of range"
  end.

(** [lower(c)] is [c | ('x' - 'X')]. *)
Definition lower (c : N) : N := N.lor c 0x20.

Definition ch (a : ascii) : N := N_of_ascii a.

(** [underscoreOK]: underscores may only separate digits, or follow a
    base prefix.  [saw] is the last class of character seen. *)
Inductive saw_t := SawStart | SawDigit | SawUnderscore | SawOther.

Fixpoint underscoreOK_loop (hex : bool) (saw : saw_t) (s : list N) : bool :=
  match s with
  | [] => match saw with SawUnderscore => false | _ => true end
  | c :: rest =>
      if (((ch "0" <=? c) && (c <=? ch "9"))
          || (hex && (ch "a" <=? lower c) && (lower c <=? ch "f")))%N
      then underscoreOK_loop hex SawDigit rest
      else if (c =? ch "_")%N
      then match saw with
           | SawDigit => underscoreOK_loop hex SawUnderscore rest
           | _ => false
           end
      else match saw with
           | SawUnderscore => false
           | _ => underscoreOK_loop hex SawOther rest
           end
  end.

Definition underscoreOK (s : list N) : bool :=
  let s := match s with
           | c :: rest => if ((c =? ch "-") || (c =? ch "+"))%N then rest else s
           | [] => s
           end in
  match s with
  | c0 :: c1 :: rest =>
      if ((c0 =? ch "0")
          && ((lower c1 =? ch "b") || (lower c1 =? ch "o") || (lower c1 =? ch "x")))%N
      then underscoreOK_loop (lower c1 =? ch "x")%N SawDigit rest
      else underscoreOK_loop false SawStart s
  | _ => underscoreOK_loop false SawStart s
  end.

Definition maxUint64 : Z := 2 ^ 64 - 1.

(** The digit loop of [ParseUint] with [bitSize] 64: [n] is the value so
    far, the boolean tells whether an underscore was seen. *)
Fixpoint ParseUint_loop (base0 : bool) (base : Z) (n : Z) (underscores : bool)
    (s : list N) : NumErr + (Z * bool) :=
  match s with
  | [] => inr (n, underscores)
  | c :: rest =>
      if ((c =? ch "_")%N && base0)
      then ParseUint_loop base0 base n true rest
      else
        let d : option Z :=
          if ((ch "0" <=? c) && (c <=? ch "9"))%N then Some (Z.of_N (c - ch "0"))
          else if ((ch "a" <=? lower c) && (lower c <=? ch "z"))%N
               then Some (Z.of_N (lower c - ch "a") + 10)%Z
               else None in
        match d with
        | None => inl ErrSyntax
        | Some d =>
            if (base <=? d)%Z then inl ErrSyntax
            else if (maxUint64 / base + 1 <=? n)%Z then inl ErrRange
            else
              let n1 := (n * base + d)%Z in
              if (maxUint64 <? n1)%Z then inl ErrRange
              else ParseUint_loop base0 base n1 underscores rest
        end
  end.

(** [ParseUint(s, 0, 64)]. *)
Definition ParseUint0 (s : list N) : NumErr + Z :=
  match s with
  | [] => inl ErrSyntax
  | c0 :: t0 =>
      let '(base, digits) :=
        if (c0 =? ch "0")%N then
          match t0 with
          | c1 :: _ :: _ =>
              if (lower c1 =? ch "b")%N then (2, List.tl t0)
              else if (lower c1 =? ch "o")%N then (8, List.tl t0)
              else if (lower c1 =? ch "x")%N then (16, List.tl t0)
              else (8, t0)
          | _ => (8, t0)
          end
        else (10, s) in
      match ParseUint_loop true base 0 false digits with
      | inl e => inl e
      | inr (n, underscores) =>
          if underscores && negb (underscoreOK s) then inl ErrSyntax
          else inr n
      end
  end%Z.

(** [ParseInt(s, 0, 64)]: an optional sign, then [ParseUint]; the value
    must fit 64 signed bits. *)
Definition ParseInt0 (s : string) : NumErr + Z :=
  match GoStrings.bytes_of s with
  | [] => inl ErrSyntax
  | (c :: rest) as s0 =>
      let '(neg, body) :=
        if (c =? ch "+")%N then (false, rest)
        else if (c =? ch "-")%N then (true, rest)
        else (false, s0) in
      let cutoff := (2 ^ 63)%Z in
      match ParseUint0 body with
      | inl ErrSyntax => inl ErrSyntax
      | inl ErrRange => inl ErrRange
      | inr un =>
          if negb neg && (cutoff <=? un)%Z then inl ErrRange
          else if neg && (cutoff <? un)%Z then inl ErrRange
          else inr (if neg then (- un)%Z else un)
      end
  end.

End Strconv.

(** ** reporter/test_summary.go *)

Module Reporter.

(** A colour of [github.com/fatih/color]: the attributes given to
    [color.New]. *)
Inductive Attribute := FgGreen | FgHiRed | FgYellow.
Definition Color := list Attribute.

(** What the summary takes from outside this file: the three result
    strings ([TestResult.String], declared in another file of the
    package), the way a colour wraps a text, and [fmt.Sprintf] applied
    to a format with no operands. *)
Class Env := {
  TestResultPassed_String : string;
  TestResultFailed_String : string;
  TestResultSkipped_String : string;
  color_wrap : Color -> string -> string;
  Sprintf_noargs : string -> string;
}.

Record testSummary := {
  passed : list string;
  failed : list string;
  skipped : list string;
}.

Definition newTestSummary : testSummary :=
  {| passed := []; failed := []; skipped := [] |}.

Section WithEnv.
Context {E : Env}.

(** The mutex only serialises the callers; one call is one step. *)
Definition append (s : testSummary) (testFileRelPath testResultString : string)
  : testSummary :=
  if String.eqb testResultString TestResultPassed_String then
    {| passed := passed s ++ [testFileRelPath]; failed := failed s; skipped := skipped s |}
  else if String.eqb testResultString TestResultFailed_String then
    {| passed := passed s; failed := failed s ++ [testFileRelPath]; skipped := skipped s |}
  else if String.eqb testResultString TestResultSkipped_String then
    {| passed := passed s; failed := failed s; skipped := skipped s ++ [testFileRelPath] |}
  else s.

(** The loop of [failedFiles]: [result] is the text built so far. *)
Fixpoint failedFiles_loop (result : string) (fs : list string) : string :=
  match fs with
  | [] => result
  | f :: rest =>
      let result := if String.eqb result "" then "Failed tests:" +:+ nl else result in
      failedFiles_loop (result +:+ tab +:+ "- " +:+ f +:+ nl) rest
  end.

Definition failedFiles (s : testSummary) : string :=
  if (length (failed s) =? 0)%nat then ""
  else failedFiles_loop "" (failed s) +:+ nl.

Definition passColor (noColor : bool) : Color := if noColor then [] else [FgGreen].
Definition failColor (noColor : bool) : Color := if noColor then [] else [FgHiRed].
Definition skipColor (noColor : bool) : Color := if noColor then [] else [FgYellow].

Definition totalText (s : testSummary) : string :=
  pretty (length (passed s) + length (failed s) + length (skipped s))%nat
    +:+ " tests run".

Definition String_ (s : testSummary) (noColor : bool) : string :=
  let passedText := color_wrap (passColor noColor) (pretty (length (passed s)) +:+ " passed") in
  let failedText := color_wrap (failColor noColor) (pretty (length (failed s)) +:+ " failed") in
  let skippedText := color_wrap (skipColor noColor) (pretty (length (skipped s)) +:+ " skipped") in
  let failedFiles := color_wrap (failColor noColor) (Sprintf_noargs (failedFiles s)) in
  nl +:+ totalText s +:+ ": " +:+ passedText +:+ ", " +:+ failedText +:+ ", "
     +:+ skippedText +:+ nl +:+ nl +:+ failedFiles.

(** The lines that the loop of [failedFiles] adds, one for each failed
    file. *)
Fixpoint failedLines (fs : list string) : string :=
  match fs with
  | [] => ""
  | f :: rest => tab +:+ "- " +:+ f +:+ nl +:+ failedLines rest
  end.

(** A sequence of [append] calls on a fresh summary. *)
Definition appendAll (calls : list (string * string)) : testSummary :=
  fold_left (fun s c => append s (fst c) (snd c)) calls newTestSummary.

End WithEnv.

(** An environment to run the definitions on: the result strings of the
    package, no colouring, and a format without verbs printed as it is. *)
Definition plainEnv : Env := {|
  TestResultPassed_String := "passed";
  TestResultFailed_String := "failed";
  TestResultSkipped_String := "skipped";
  color_wrap := fun _ s => s;
  Sprintf_noargs := fun s => s;
|}.

End Reporter.

(** ** protocol/grpc/expect.go *)

Module Grpc.

(** One element of [status.Details()], as [detailsString] tells them
    apart: a proto message (its name and its [String()]), a value with
    an [Error()] method, or anything else (its [%#v] form). *)
Inductive detail :=
| DProto (name text : string)
| DError (msg : string)
| DOther (gosyntax : string).

(** A non-nil [*status.Status]; the code is the [uint32] of
    [codes.Code]. *)
Record Status := {
  st_code : Z;
  st_message : string;
  st_details : list detail;
}.

(** The accessors of [*status.Status] accept a nil receiver. *)
Definition Code (sts : option Status) : Z :=
  match sts with None => 0 | Some s => st_code s end.
Definition Message (sts : option Status) : string :=
  match sts with None => "" | Some s => st_message s end.
Definition Details (sts : option Status) : list detail :=
  match sts with None => [] | Some s => st_details s end.

(** [codes.Code.String]. *)
Definition Code_String (c : Z) : string :=
  match c with
  | 0 => "OK" | 1 => "Canceled" | 2 => "Unknown" | 3 => "InvalidArgument"
  | 4 => "DeadlineExceeded" | 5 => "NotFound" | 6 => "AlreadyExists"
  | 7 => "PermissionDenied" | 8 => "ResourceExhausted"
  | 9 => "FailedPrecondition" | 10 => "Aborted" | 11 => "OutOfRange"
  | 12 => "Unimplemented" | 13 => "Internal" | 14 => "Unavailable"
  | 15 => "DataLoss" | 16 => "Unauthenticated"
  | _ => "Code(" +:+ pretty c +:+ ")"
  end%Z.

(** The conversion [int32(c)] of a [uint32]. *)
Definition int32_of (c : Z) : Z := ((c + 2 ^ 31) mod 2 ^ 32 - 2 ^ 31)%Z.

(** [strconv.Itoa]. *)
Definition Itoa (n : Z) : string := pretty n.

Record ExpectStatus := {
  es_Code : string;
  es_Message : string;
}.

Record Expect := {
  e_Code : string;
  e_Status : ExpectStatus;
}.

Definition detailsString (sts : option Status) : string :=
  GoStrings.Join
    (map (fun i =>
            match i with
            | DProto name text => name +:+ ": {" +:+ text +:+ "}"
            | DError msg => "<non proto message>: {" +:+ msg +:+ "}"
            | DOther g => "<non proto message>: {{" +:+ g +:+ "}}"
            end)
         (Details sts))
    ", ".

Definition expectedCode (e : Expect) : string :=
  let expectedCode := "OK" in
  let expectedCode := if negb (String.eqb (e_Code e) "") then e_Code e else expectedCode in
  let expectedCode :=
    if negb (String.eqb (es_Code (e_Status e)) "") then es_Code (e_Status e)
    else expectedCode in
  expectedCode.

(** The returned error: [None] is [nil], [Some msg] an error with that
    message. *)
Definition assertStatusCode (e : Expect) (sts : option Status) : option string :=
  let expectedCode := expectedCode e in
  if String.eqb (Code_String (Code sts)) expectedCode then None
  else if String.eqb (Itoa (int32_of (Code sts))) expectedCode then None
  else Some ("expected code is " +:+ dq +:+ expectedCode +:+ dq +:+ " but got " +:+ dq
             +:+ Code_String (Code sts) +:+ dq +:+ ": message=" +:+ dq +:+ Message sts
             +:+ dq +:+ ": details=[ " +:+ detailsString sts +:+ " ]").

(** A status and an expectation to run the assertion on. *)
Definition notFound : option Status :=
  Some {| st_code := 5; st_message := "no such user"; st_details := [] |}.

Definition expectFive : Expect :=
  {| e_Code := "NotFound"; e_Status := {| es_Code := "5"; es_Message := "" |} |}.

End Grpc.

(** ** template/template.go *)

Module Template.

(** *** Tokens and the expression tree (packages [token] and [ast]) *)

Inductive Token :=
| STRING | INT | FLOAT | BOOL
| ADD | SUB | MUL | QUO | REM
| EQL | NEQ | LSS | LEQ | GTR | GEQ
| LAND | LOR | NOT
| OtherToken (name : string).

(** Modelled from the spec: the [token] package is not among the
    sources; its [String] method gives an operator its spelling (section
    4.1 of the specification lists them) and a literal kind its name. *)
Definition Token_String (t : Token) : string :=
  match t with
  | STRING => "string" | INT => "int" | FLOAT => "float" | BOOL => "bool"
  | ADD => "+" | SUB => "-" | MUL => "*" | QUO => "/" | REM => "%"
  | EQL => "==" | NEQ => "!=" | LSS => "<" | LEQ => "<=" | GTR => ">" | GEQ => ">="
  | LAND => "&&" | LOR => "||" | NOT => "!"
  | OtherToken name => name
  end.

(** The node types of [ast] that [executeExpr] tells apart.  A field
    that the source tests against [nil] is an [option]; [BadExpr] is any
    other node (the [default] branch), with its [%T] name. *)
Inductive Expr :=
| BasicLit (Kind : Token) (Value : string)
| ParameterExpr (X : option Expr) (Quoted : bool)
| ParenExpr (X : Expr)
| UnaryExpr (Op : Token) (X : Expr)
| BinaryExpr (X : Expr) (Op : Token) (Y : Expr)
| ConditionalExpr (Condition X Y : Expr)
| Ident (Name : string)
| SelectorExpr (X : Expr) (Sel : string)
| IndexExpr (X : Expr) (Index : Expr)
| CallExpr (Fun : Expr) (Args : list Expr)
| LeftArrowExpr (Fun : Expr) (Arg : option Expr)
| DefinedExpr (Arg : Expr)
| BadExpr (T : string).

(** *** Host values, as reflection shows them *)

Inductive ikind := Int | Int8 | Int16 | Int32 | Int64.
Inductive ukind := Uint | Uint8 | Uint16 | Uint32 | Uint64.
Inductive fkind := Float32 | Float64.
Inductive okind :=
  Uintptr | Complex64 | Complex128 | Array | Chan | Interface | UnsafePointer.

(** [reflect.Kind]. *)
Inductive Kind :=
| Invalid | KBool | KInt (k : ikind) | KUint (k : ukind) | KFloat (k : fkind)
| KString | KSlice | KMap | KStruct | KFunc | KPtr | KOther (k : okind).

#[global] Instance ikind_eq_dec : EqDecision ikind.
Proof. solve_decision. Defined.
#[global] Instance ukind_eq_dec : EqDecision ukind.
Proof. solve_decision. Defined.
#[global] Instance fkind_eq_dec : EqDecision fkind.
Proof. solve_decision. Defined.
#[global] Instance okind_eq_dec : EqDecision okind.
Proof. solve_decision. Defined.
#[global] Instance Kind_eq_dec : EqDecision Kind.
Proof. solve_decision. Defined.

(** A [[]byte] is a slice header over a backing array of the heap. *)
Record slice := { arr : nat; off : nat; len : nat; cap : nat }.

(** A value held in an [interface{}].  [VNil] is the nil interface.
    [VInt k n] and [VUint k n] carry the integer as a [Z]; it is read
    through [int_val] and [uint_val], which reduce it to the width of
    its kind.  [VNamed T v] is a value of the defined type [T] whose
    underlying representation is [v]: it has the kind of [v] but is not
    of a predeclared type.  [VPtr None] is a nil pointer. *)
Inductive value :=
| VNil
| VBool (b : bool)
| VInt (k : ikind) (n : Z)
| VUint (k : ukind) (n : Z)
| VFloat (k : fkind) (f : float)
| VString (s : string)
| VBytes (s : slice)
| VSeq (elems : list value)
| VMap (entries : list (value * value))
| VStruct (T : string) (fields : list (string * value))
| VFunc (name : string)
| VPtr (target : option value)
| VNamed (T : string) (v : value)
| VOpaque (k : okind) (T : string) (id : string).

(** [reflect.ValueOf(v).Kind()]. *)
Fixpoint Kind_of (v : value) : Kind :=
  match v with
  | VNil => Invalid
  | VBool _ => KBool
  | VInt k _ => KInt k
  | VUint k _ => KUint k
  | VFloat k _ => KFloat k
  | VString _ => KString
  | VBytes _ | VSeq _ => KSlice
  | VMap _ => KMap
  | VStruct _ _ => KStruct
  | VFunc _ => KFunc
  | VPtr _ => KPtr
  | VNamed _ v' => Kind_of v'
  | VOpaque k _ _ => KOther k
  end.

(** The representation under the defined types. *)
Fixpoint underlying (v : value) : value :=
  match v with
  | VNamed _ v' => underlying v'
  | _ => v
  end.

(** Modelled from the spec: [reflectutil.Elem] is not among the sources;
    "pointers are transparently dereferenced" (specification, section
    4.4).  The target of a nil pointer is the invalid value. *)
Fixpoint Elem (v : value) : value :=
  match v with
  | VPtr None => VNil
  | VPtr (Some v') => Elem v'
  | VNamed _ v' => match Kind_of v' with KPtr => Elem v' | _ => v end
  | _ => v
  end.

Definition IsValid (v : value) : bool :=
  match Kind_of v with Invalid => false | _ => true end.

(** *** Machine integers *)

Definition MaxInt64 : Z := 2 ^ 63 - 1.
Definition MinInt64 : Z := - 2 ^ 63.
Definition MaxUint64 : Z := 2 ^ 64 - 1.

(** Two's complement reduction to [bits] bits. *)
Definition wrap_signed (bits n : Z) : Z :=
  ((n + 2 ^ (bits - 1)) mod 2 ^ bits - 2 ^ (bits - 1))%Z.
Definition wrap_unsigned (bits n : Z) : Z := (n mod 2 ^ bits)%Z.

Definition int64 (n : Z) : Z := wrap_signed 64 n.
Definition uint64 (n : Z) : Z := wrap_unsigned 64 n.

Definition ibits (k : ikind) : Z :=
  match k with Int => 64 | Int8 => 8 | Int16 => 16 | Int32 => 32 | Int64 => 64 end.
Definition ubits (k : ukind) : Z :=
  match k with Uint => 64 | Uint8 => 8 | Uint16 => 16 | Uint32 => 32 | Uint64 => 64 end.

Definition int_val (k : ikind) (n : Z) : Z := wrap_signed (ibits k) n.
Definition uint_val (k : ukind) (n : Z) : Z := wrap_unsigned (ubits k) n.

Definition in_int64 (n : Z) : bool := ((MinInt64 <=? n) && (n <=? MaxInt64))%Z.

(** The 64-bit signed range, as a proposition. *)
Definition fits (n : Z) : Prop := (MinInt64 <= n <= MaxInt64)%Z.

(** [xv.Convert(typeInt64).Interface().(int64)] and its siblings; the
    conversions succeed on every value of the kind. *)
Definition Convert_int64 (v : value) : option Z :=
  match underlying v with VInt k n => Some (int_val k n) | _ => None end.
Definition Convert_uint64 (v : value) : option Z :=
  match underlying v with VUint k n => Some (uint_val k n) | _ => None end.
Definition Convert_float64 (v : value) : option float :=
  match underlying v with VFloat _ f => Some f | _ => None end.
Definition Convert_bool (v : value) : option bool :=
  match underlying v with VBool b => Some b | _ => None end.
Definition Convert_string (v : value) : option string :=
  match underlying v with VString s => Some s | _ => None end.

(** *** Errors, outcomes and the state *)

(** An [error]: a plain message ([errors.New], [Errorf]), the lookup's
    distinguished [errNotDefined], or an error that wraps a cause
    ([Wrapf], [%w]); the message of the last is [msg: cause]. *)
Inductive error :=
| errorString (msg : string)
| errNotDefined (msg : string)
| wrapError (msg : string) (cause : error).

Fixpoint Error (e : error) : string :=
  match e with
  | errorString msg => msg
  | errNotDefined msg => msg
  | wrapError msg cause => msg +:+ ": " +:+ Error cause
  end.

(** [errors.As(err, &notDefined)] with [notDefined] an [errNotDefined]:
    some error of the chain is one. *)
Fixpoint As_errNotDefined (e : error) : bool :=
  match e with
  | errorString _ => false
  | errNotDefined _ => true
  | wrapError _ cause => As_errNotDefined cause
  end.

(** What a call does: it returns a value, returns an error, or panics;
    the panic carries the text that [%s] prints for its value. *)
Inductive outcome (A : Type) :=
| Ok (a : A)
| Err (e : error)
| Panic (reason : string).
Arguments Ok {A} a.
Arguments Err {A} e.
Arguments Panic {A} reason.

(** The backing arrays of the byte slices. *)
Definition heap := list (list ascii).

(** The state an evaluation works on: the heap, and the function stash
    that [t.argFuncs] points to ([None] is the nil map). *)
Record state := {
  mem : heap;
  argFuncs : option (gmap string value);
}.

Definition HostM (A : Type) : Type := heap -> outcome A * heap.
Definition M (A : Type) : Type := state -> outcome A * state.

Definition ret {A} (a : A) : M A := fun st => (Ok a, st).
Definition fail {A} (e : error) : M A := fun st => (Err e, st).
Definition panic {A} (reason : string) : M A := fun st => (Panic reason, st).
Definition bind {A B} (m : M A) (k : A -> M B) : M B :=
  fun st =>
    match m st with
    | (Ok a, st') => k a st'
    | (Err e, st') => (Err e, st')
    | (Panic p, st') => (Panic p, st')
    end.

Definition errorf {A} (msg : string) : M A := fail (errorString msg).

(** A pure call that may fail or panic. *)
Definition liftO {A} (o : outcome A) : M A := fun st => (o, st).

(** A host call, which works on the heap only. *)
Definition liftH {A} (m : HostM A) : M A :=
  fun st =>
    let '(o, h) := m (mem st) in
    (o, {| mem := h; argFuncs := argFuncs st |}).

Notation "'do' x <- m ; k" := (bind m (fun x => k))
  (at level 10, x name, m at level 100, k at level 200).

(** *** What the evaluator takes from outside [template.go] *)

Definition rtype := string.

(** [reflect.Type] of a function: its parameter types, and whether the
    last is variadic. *)
Record functype := { In : list rtype; IsVariadic : bool }.
Definition NumIn (ft : functype) : nat := length (In ft).

(** A result of [reflect.Value.Call], through the methods that
    [executeFuncCall] calls on it. *)
Record rvalue := {
  rv_IsValid : bool;
  rv_CanInterface : bool;
  rv_Type : rtype;
  rv_IsNil : bool;
  rv_Interface : value;
  rv_error : error;
}.

Definition TypeError : rtype := "error".

(** The functions of this package declared in other files ([lookup],
    [extract], [comparable], [reflectEqual], [convert], the package-level
    [Execute]), of [reflectutil], and of the libraries ([reflect], [fmt],
    [strconv], [yaml]), with the helper functions the data tree holds. *)
Class Host := {
  lookup : Expr -> value -> outcome value;
  extract : Expr -> value -> outcome value;
  comparable : value -> bool;
  reflectEqual : value -> value -> bool;
  ParseFloat : string -> error + float;
  Quote : string -> string;
  TypeOf : value -> rtype;
  GoSyntax : value -> string;
  FuncType : value -> functype;
  Type_Elem : rtype -> rtype;
  Convert : rtype -> value -> value * bool;
  MethodByName : value -> string -> option value;
  Call : value -> list value -> HostM (list rvalue);
  implementsFunc : value -> bool;
  Func_Exec : value -> value -> HostM value;
  Func_UnmarshalArg : value -> (rtype -> HostM value) -> HostM value;
  yaml_Marshal : value -> HostM string;
  yaml_Decode : string -> rtype -> HostM value;
  ExecuteData : value -> option (gmap string value) -> HostM value;
  convert : rtype -> value -> outcome value;
  Parse : string -> error + (Expr + string);
}.

(** [Template]: the source text, the tree and the mode flag; the stash
    that [argFuncs] points to lives in the state. *)
Record Template := {
  str : string;
  expr : Expr;
  executingLeftArrowExprArg : bool;
}.

(** *** Byte slices *)

Definition bytes_at (h : heap) (s : slice) : list ascii :=
  take (len s) (drop (off s) (default [] (h !! arr s))).

(** The bytes [bs] stored into array [a] from position [pos] on. *)
Definition write_at (h : heap) (a pos : nat) (bs : list ascii) : heap :=
  match h !! a with
  | Some old => <[a := (take pos old ++ bs ++ drop (pos + length bs) old)%list]> h
  | None => h
  end.

(** The built-in [append(xb, yb...)]: when the capacity of [xb] fits the
    result, the bytes are stored behind [xb] in its own backing array;
    otherwise a new array receives both.  (The runtime may give the new
    array spare capacity; here it has none.) *)
Definition append_bytes (xb yb : slice) : M slice :=
  fun st =>
    let h := mem st in
    let ys := bytes_at h yb in
    if (len xb + len yb <=? cap xb)%nat then
      (Ok {| arr := arr xb; off := off xb; len := len xb + len yb; cap := cap xb |},
       {| mem := write_at h (arr xb) (off xb + len xb) ys; argFuncs := argFuncs st |})
    else
      let fresh := (bytes_at h xb ++ ys)%list in
      (Ok {| arr := length h; off := 0; len := length fresh; cap := length fresh |},
       {| mem := (h ++ [fresh])%list; argFuncs := argFuncs st |}).

(** [bytes.Compare]. *)
Fixpoint bytes_Compare (a b : list ascii) : comparison :=
  match a, b with
  | [], [] => Eq
  | [], _ :: _ => Lt
  | _ :: _, [] => Gt
  | x :: a', y :: b' =>
      match N.compare (N_of_ascii x) (N_of_ascii y) with
      | Eq => bytes_Compare a' b'
      | c => c
      end
  end.

(** [bytes.Equal]. *)
Definition bytes_Equal (a b : list ascii) : bool :=
  match bytes_Compare a b with Eq => true | _ => false end.

(** *** The function stash *)

(** [funcStash.save]. *)
Definition save (f : value) : M string :=
  fun st =>
    let s := match argFuncs st with None => ∅ | Some s => s end in
    let name := "func-" +:+ pretty (size s) in
    (Ok name, {| mem := mem st; argFuncs := Some (<[name := f]> s) |}).

(** *** [addIndent] *)

(** The loop over [strings.Split(str, "\n")]: [i] is the index of the
    line. *)
Fixpoint addIndent_loop (prefix : string) (i : nat) (lines : list string) : string :=
  match lines with
  | [] => ""
  | s :: rest =>
      (if negb (i =? 0)%nat
       then nl +:+ (if negb (String.eqb s "") then prefix else "")
       else "")
      +:+ s +:+ addIndent_loop prefix (S i) rest
  end.

Definition addIndent (t : Template) (str preStr : string) : string :=
  if executingLeftArrowExprArg t then
    if GoStrings.ContainsByte str LF && negb (String.eqb preStr "") then
      let lines := GoStrings.Split preStr LF in
      let prefix := GoStrings.Repeat " " (GoStrings.RuneCount (GoStrings.last_piece lines)) in
      addIndent_loop prefix 0 (GoStrings.Split str LF)
    else str
  else str.

(** *** The arithmetic of [executeBinaryExpr], kind by kind.  [None] is
    an operator the kind's [switch] has no case for. *)

Definition int_binary (op : Token) (xi yi : Z) : option (outcome value) :=
  match op with
  | ADD =>
      Some (if ((yi >? 0) && (xi >? int64 (MaxInt64 - yi))
                || (yi <? 0) && (xi <? int64 (MinInt64 - yi)))%Z
            then Err (errorString (pretty xi +:+ " + " +:+ pretty yi +:+ " overflows int"))
            else Ok (VInt Int64 (int64 (xi + yi))))
  | SUB =>
      Some (if ((yi <? 0) && (xi >? int64 (MaxInt64 + yi))
                || (yi >? 0) && (xi <? int64 (MinInt64 + yi)))%Z
            then Err (errorString (pretty xi +:+ " - " +:+ pretty yi +:+ " overflows int"))
            else Ok (VInt Int64 (int64 (xi - yi))))
  | MUL =>
      Some (if ((xi >? 0) && (yi >? 0) && (xi >? int64 (MaxInt64 ÷ yi))
                || (xi <? 0) && (yi <? 0) && (xi <? int64 (MaxInt64 ÷ yi))
                || (xi >? 0) && (yi <? 0) && (yi <? int64 (MinInt64 ÷ xi))
                || (xi <? 0) && (yi >? 0) && (xi <? int64 (MinInt64 ÷ yi)))%Z
            then Err (errorString (pretty xi +:+ " * " +:+ pretty yi +:+ " overflows int"))
            else Ok (VInt Int64 (int64 (xi * yi))))
  | QUO =>
      Some (if (yi =? 0)%Z then Err (errorString "division by 0")
            else Ok (VInt Int64 (int64 (xi ÷ yi))))
  | REM =>
      Some (if (yi =? 0)%Z then Err (errorString "division by 0")
            else Ok (VInt Int64 (int64 (Z.rem xi yi))))
  | LSS => Some (Ok (VBool (xi <? yi)%Z))
  | LEQ => Some (Ok (VBool (xi <=? yi)%Z))
  | GTR => Some (Ok (VBool (xi >? yi)%Z))
  | GEQ => Some (Ok (VBool (xi >=? yi)%Z))
  | _ => None
  end.

(** In the [MUL] case the source divides by [yi] before any test of it:
    a zero [yi] panics. *)
Definition uint_binary (op : Token) (xi yi : Z) : option (outcome value) :=
  match op with
  | ADD =>
      Some (if ((yi >? 0) && (xi >? uint64 (MaxUint64 - yi)))%Z
            then Err (errorString (pretty xi +:+ " + " +:+ pretty yi +:+ " overflows uint"))
            else Ok (VUint Uint64 (uint64 (xi + yi))))
  | SUB =>
      Some (if (xi <? yi)%Z
            then Err (errorString (pretty xi +:+ " - " +:+ pretty yi +:+ " overflows uint"))
            else Ok (VUint Uint64 (uint64 (xi - yi))))
  | MUL =>
      Some (if (yi =? 0)%Z then Panic "runtime error: integer divide by zero"
            else if (xi >? MaxUint64 / yi)%Z
            then Err (errorString (pretty xi +:+ " * " +:+ pretty yi +:+ " overflows uint"))
            else Ok (VUint Uint64 (uint64 (xi * yi))))
  | QUO =>
      Some (if (yi =? 0)%Z then Err (errorString "division by 0")
            else Ok (VUint Uint64 (xi / yi)%Z))
  | REM =>
      Some (if (yi =? 0)%Z then Err (errorString "division by 0")
            else Ok (VUint Uint64 (xi mod yi)%Z))
  | LSS => Some (Ok (VBool (xi <? yi)%Z))
  | LEQ => Some (Ok (VBool (xi <=? yi)%Z))
  | GTR => Some (Ok (VBool (xi >? yi)%Z))
  | GEQ => Some (Ok (VBool (xi >=? yi)%Z))
  | _ => None
  end.

Definition float_binary (op : Token) (xf yf : float) : option (outcome value) :=
  match op with
  | ADD => Some (Ok (VFloat Float64 (PrimFloat.add xf yf)))
  | SUB => Some (Ok (VFloat Float64 (PrimFloat.sub xf yf)))
  | MUL => Some (Ok (VFloat Float64 (PrimFloat.mul xf yf)))
  | QUO =>
      Some (if PrimFloat.eqb yf PrimFloat.zero then Err (errorString "division by 0")
            else Ok (VFloat Float64 (PrimFloat.div xf yf)))
  | LSS => Some (Ok (VBool (PrimFloat.ltb xf yf)))
  | LEQ => Some (Ok (VBool (PrimFloat.leb xf yf)))
  | GTR => Some (Ok (VBool (PrimFloat.ltb yf xf)))
  | GEQ => Some (Ok (VBool (PrimFloat.leb yf xf)))
  | _ => None
  end.

Definition bool_binary (op : Token) (xb yb : bool) : option (outcome value) :=
  match op with
  | LAND => Some (Ok (VBool (xb && yb)))
  | LOR => Some (Ok (VBool (xb || yb)))
  | _ => None
  end.

Definition string_binary (op : Token) (xs ys : string) : option (outcome value) :=
  match op with
  | ADD => Some (Ok (VString (xs +:+ ys)))
  | LSS => Some (Ok (VBool (String.ltb xs ys)))
  | LEQ => Some (Ok (VBool (String.leb xs ys)))
  | GTR => Some (Ok (VBool (String.ltb ys xs)))
  | GEQ => Some (Ok (VBool (String.leb ys xs)))
  | _ => None
  end.

Definition cmp_lt (c : comparison) : bool := match c with Lt => true | _ => false end.
Definition cmp_le (c : comparison) : bool := match c with Gt => false | _ => true end.
Definition cmp_gt (c : comparison) : bool := match c with Gt => true | _ => false end.
Definition cmp_ge (c : comparison) : bool := match c with Lt => false | _ => true end.

Definition readH {A} (f : heap -> A) : M A := fun st => (Ok (f (mem st)), st).

Definition bytes_binary (op : Token) (xb yb : slice) : option (M value) :=
  let compare := fun h => bytes_Compare (bytes_at h xb) (bytes_at h yb) in
  match op with
  | ADD => Some (do s <- append_bytes xb yb; ret (VBytes s))
  | LSS => Some (readH (fun h => VBool (cmp_lt (compare h))))
  | LEQ => Some (readH (fun h => VBool (cmp_le (compare h))))
  | GTR => Some (readH (fun h => VBool (cmp_gt (compare h))))
  | GEQ => Some (readH (fun h => VBool (cmp_ge (compare h))))
  | _ => None
  end.

(** The type switch of the [SUB] case of [executeUnaryExpr]: only the
    predeclared numeric types have a case. *)
Definition ikind_name (k : ikind) : string :=
  match k with
  | Int => "int" | Int8 => "int8" | Int16 => "int16" | Int32 => "int32" | Int64 => "int64"
  end.

Definition neg_uint (checked : bool) (n : Z) : outcome value :=
  if checked && (n >? 2 ^ 63)%Z
  then Err (errorString ("-" +:+ pretty n +:+ " overflows int"))
  else Ok (VInt Int (int64 (- int64 n))).

Definition negate (v : value) : option (outcome value) :=
  match v with
  | VInt k n =>
      let n := int_val k n in
      Some (if (n =? - 2 ^ (ibits k - 1))%Z
            then Err (errorString ("-(" +:+ pretty n +:+ ") overflows " +:+ ikind_name k))
            else Ok (VInt k (- n)))
  | VUint Uint n => Some (neg_uint true (uint_val Uint n))
  | VUint Uint8 n => Some (neg_uint false (uint_val Uint8 n))
  | VUint Uint16 n => Some (neg_uint false (uint_val Uint16 n))
  | VUint Uint32 n => Some (neg_uint true (uint_val Uint32 n))
  | VUint Uint64 n => Some (neg_uint true (uint_val Uint64 n))
  | VFloat k f => Some (Ok (VFloat k (PrimFloat.opp f)))
  | _ => None
  end.

Definition isParameterExpr (e : Expr) : bool :=
  match e with ParameterExpr _ _ => true | _ => false end.

Definition hbind {A B} (m : HostM A) (k : A -> HostM B) : HostM B :=
  fun h =>
    match m h with
    | (Ok a, h') => k a h'
    | (Err e, h') => (Err e, h')
    | (Panic p, h') => (Panic p, h')
    end.

(** An error returned by a callee, reworked on its way up. *)
Definition mapErr {A} (f : error -> error) (m : M A) : M A :=
  fun st =>
    match m st with
    | (Err e, st') => (Err (f e), st')
    | r => r
    end.

(** The deferred function of [Execute]: a panic becomes the returned
    error.  ([recover] gives the value of the panic, never nil: since Go
    1.21 a [panic(nil)] carries a [*runtime.PanicNilError].) *)
Definition recovered {A} (m : M A) : M A :=
  fun st =>
    match m st with
    | (Panic reason, st') =>
        (Err (errorString ("failed to execute: panic: " +:+ reason)), st')
    | r => r
    end.

Section Evaluator.
Context {H : Host}.

(** The recursive calls: [t.executeExpr(expr, data)]. *)
Variable executeExpr : Template -> Expr -> value -> M value.

Definition executeBasicLit (Kind : Token) (Value : string) : M value :=
  match Kind with
  | STRING => ret (VString Value)
  | INT =>
      match Strconv.ParseInt0 Value with
      | inr i => ret (VInt Int64 i)
      | inl e =>
          fail (wrapError
                  ("invalid AST: " +:+ dq +:+ Value +:+ dq +:+ " is not an integer")
                  (errorString ("strconv.ParseInt: parsing " +:+ Quote Value +:+ ": "
                                +:+ Strconv.NumErr_msg e)))
      end
  | FLOAT =>
      match ParseFloat Value with
      | inr f => ret (VFloat Float64 f)
      | inl err =>
          fail (wrapError
                  ("invalid AST: " +:+ dq +:+ Value +:+ dq +:+ " is not a float") err)
      end
  | BOOL =>
      if String.eqb Value "true" then ret (VBool true)
      else if String.eqb Value "false" then ret (VBool false)
      else errorf ("invalid bool literal " +:+ dq +:+ Value +:+ dq)
  | _ => errorf ("unknown basic literal " +:+ dq +:+ Token_String Kind +:+ dq)
  end.

Definition executeParameterExpr (t : Template) (X : option Expr) (Quoted : bool)
    (data : value) : M value :=
  match X with
  | None => ret (VString "")
  | Some X =>
      do v <- executeExpr t X data;
      if executingLeftArrowExprArg t then
        if decide (Kind_of (Elem v) = KFunc) then
          do name <- save v;
          if Quoted then ret (VString ("'{{" +:+ name +:+ "}}'"))
          else ret (VString ("{{" +:+ name +:+ "}}"))
        else
          do b <- liftH (yaml_Marshal v);
          ret (VString (GoStrings.TrimSuffixLF b))
      else ret v
  end.

(** A value taken out of an [interface{}] can always be put back:
    [CanInterface] holds wherever the source tests it here. *)
Definition executeUnaryExpr (t : Template) (Op : Token) (X : Expr) (data : value)
  : M value :=
  do x <- executeExpr t X data;
  let unknown : M value :=
    errorf ("unknown operation: operator " +:+ Token_String Op
            +:+ " not defined on " +:+ TypeOf x) in
  match Op with
  | SUB =>
      let v := Elem x in
      if IsValid v then
        match negate v with
        | Some o => liftO o
        | None => unknown
        end
      else unknown
  | NOT =>
      let v := Elem x in
      if IsValid v then
        match v with
        | VBool b => ret (VBool (negb b))
        | _ => unknown
        end
      else unknown
  | _ => unknown
  end.

Definition equal (h : heap) (x y : value) : bool * bool :=
  if decide (Kind_of x = Invalid) then (true, true)
  else if comparable x then (reflectEqual x y, true)
  else match x, y with
       | VBytes xb, VBytes yb => (bytes_Equal (bytes_at h xb) (bytes_at h yb), true)
       | _, _ => (false, false)
       end.

(** The [switch xv.Kind()] of [executeBinaryExpr], with the final
    [return] for the operators and kinds without a case. *)
Definition binary_switch (t : Template) (op : Token) (Y : Expr) (x y : value)
  : M value :=
  let undefined : M value :=
    errorf ("operator " +:+ Token_String op +:+ " not defined on " +:+ GoSyntax x
            +:+ " (value of type " +:+ TypeOf x +:+ ")") in
  let run (o : option (outcome value)) : M value :=
    match o with Some o => liftO o | None => undefined end in
  match Kind_of x with
  | KInt _ =>
      match Convert_int64 x, Convert_int64 y with
      | Some xi, Some yi => run (int_binary op xi yi)
      | _, _ => undefined
      end
  | KUint _ =>
      match Convert_uint64 x, Convert_uint64 y with
      | Some xi, Some yi => run (uint_binary op xi yi)
      | _, _ => undefined
      end
  | KFloat _ =>
      match Convert_float64 x, Convert_float64 y with
      | Some xf, Some yf => run (float_binary op xf yf)
      | _, _ => undefined
      end
  | KBool =>
      match Convert_bool x, Convert_bool y with
      | Some xb, Some yb => run (bool_binary op xb yb)
      | _, _ => undefined
      end
  | KString =>
      match Convert_string x, Convert_string y with
      | Some xs, Some ys =>
          let ys :=
            match op with
            | ADD =>
                if executingLeftArrowExprArg t && isParameterExpr Y
                then addIndent t ys xs else ys
            | _ => ys
            end in
          run (string_binary op xs ys)
      | _, _ => undefined
      end
  | KSlice =>
      match x, y with
      | VBytes xb, VBytes yb =>
          match bytes_binary op xb yb with
          | Some m => m
          | None => undefined
          end
      | _, _ => undefined
      end
  | Invalid => errorf ("operator " +:+ Token_String op +:+ " not defined on nil")
  | _ => undefined
  end.

Definition executeBinaryExpr (t : Template) (X : Expr) (Op : Token) (Y : Expr)
    (data : value) : M value :=
  do x <- executeExpr t X data;
  do y <- executeExpr t Y data;
  if decide (Kind_of x = Kind_of y) then
    do eq <- readH (fun h => equal h x y);
    match Op, eq with
    | EQL, (b, true) => ret (VBool b)
    | NEQ, (b, true) => ret (VBool (negb b))
    | _, _ => binary_switch t Op Y x y
    end
  else
    errorf (GoSyntax x +:+ " " +:+ Token_String Op +:+ " " +:+ GoSyntax y
            +:+ ": mismatched types " +:+ TypeOf x +:+ " and " +:+ TypeOf y).

Definition executeConditionalExpr (t : Template) (Condition X Y : Expr) (data : value)
  : M value :=
  do c <- executeExpr t Condition data;
  match c with
  | VBool condition =>
      if condition then executeExpr t X data else executeExpr t Y data
  | _ =>
      errorf ("invalid operation: operator ? not defined on " +:+ GoSyntax c
              +:+ " (value of type " +:+ TypeOf c +:+ ")")
  end.

Definition requiredFuncArgType (funcType : functype) (argIdx : nat) : rtype :=
  if negb (IsVariadic funcType) then nth argIdx (In funcType) ""
  else
    let argNum := NumIn funcType in
    let lastArgIdx := (argNum - 1)%nat in
    if (argIdx <? lastArgIdx)%nat then nth argIdx (In funcType) ""
    else Type_Elem (nth lastArgIdx (In funcType) "").

(** [getMethod]: the method is looked for on the dereferenced value,
    then on a pointer to it ([r.Addr()] when [r] is addressable, a
    pointer to a copy otherwise; both point to the same value).
    [r.Type()] panics on the invalid value. *)
Definition getMethod (in_ : value) (name : string) : outcome (option (value * value)) :=
  let r := Elem in_ in
  if negb (IsValid r) then Panic "reflect: call of reflect.Value.Type on zero Value"
  else
    match MethodByName r name with
    | Some m => Ok (Some (r, m))
    | None =>
        let ptr := VPtr (Some r) in
        match MethodByName ptr name with
        | Some m => Ok (Some (ptr, m))
        | None => Ok None
        end
    end.

(** The loop of [executeArgs]: [i] is the index of the argument. *)
Fixpoint executeArgs_loop (t : Template) (fnName : string) (fnType : functype)
    (data : value) (i : nat) (vs : list value) (args : list Expr) : M (list value) :=
  match args with
  | [] => ret vs
  | arg :: rest =>
      do a <- executeExpr t arg data;
      let requiredType := requiredFuncArgType fnType (length vs) in
      let v := a in
      let '(vv, ok) := Convert requiredType v in
      let v := if ok then vv else v in
      if negb (IsValid v) then
        errorf ("can't use nil as " +:+ requiredType +:+ " in arguments["
                +:+ pretty i +:+ "] to " +:+ fnName)
      else if negb (String.eqb (TypeOf v) requiredType) then
        errorf ("can't use " +:+ TypeOf v +:+ " as " +:+ requiredType
                +:+ " in arguments[" +:+ pretty i +:+ "] to " +:+ fnName)
      else executeArgs_loop t fnName fnType data (S i) (vs ++ [v])%list rest
  end.

Definition executeArgs (t : Template) (fnName : string) (fnType : functype)
    (vs : list value) (args : list Expr) (data : value) : M (list value) :=
  executeArgs_loop t fnName fnType data 0 vs args.

(** The results of the call, as the [switch len(vs)] reads them. *)
Definition callResult (vs : list rvalue) : M value :=
  match vs with
  | [v0] =>
      if negb (rv_IsValid v0) || negb (rv_CanInterface v0)
      then errorf "function returns an invalid value"
      else ret (rv_Interface v0)
  | [v0; v1] =>
      if negb (rv_IsValid v0) || negb (rv_CanInterface v0)
      then errorf "first reruned value is invalid"
      else if negb (rv_IsValid v1) || negb (rv_CanInterface v1)
      then errorf "second reruned value is invalid"
      else if negb (String.eqb (rv_Type v1) TypeError)
      then errorf "second returned value must be an error"
      else if negb (rv_IsNil v1) then fail (rv_error v1)
      else ret (rv_Interface v0)
  | _ => errorf "function should return a value or a value and an error"
  end.

(** The callee of [executeFuncCall]: the function, its name for the
    messages, and the receiver when it is a method. *)
Definition resolveCallee (t : Template) (Fun : Expr) (data : value)
  : M (value * string * list value) :=
  match Fun with
  | SelectorExpr X Sel =>
      do x <- executeExpr t X data;
      match lookup (Ident Sel) x with
      | Ok v => ret (v, Sel, [])
      | Panic p => panic p
      | Err err =>
          do found <- liftO (getMethod x Sel);
          match found with
          | None => fail err
          | Some (r, m) => ret (m, Sel, [r])
          end
      end
  | _ =>
      do f <- executeExpr t Fun data;
      ret (f, match Fun with Ident Name => Name | _ => "function" end, [])
  end.

Definition executeFuncCall (t : Template) (Fun : Expr) (Args : list Expr)
    (data : value) : M value :=
  do callee <- resolveCallee t Fun data;
  let '(fn, fnName, args) := callee in
  if decide (Kind_of fn = KFunc) then
    let fnType := FuncType fn in
    let argNum := (length args + length Args)%nat in
    let arityError : option string :=
      if IsVariadic fnType then
        let minArgNum := (Z.of_nat (NumIn fnType) - 1)%Z in
        if (Z.of_nat argNum <? minArgNum)%Z then
          Some ("too few arguments to function: expected minimum argument number is "
                +:+ pretty minArgNum +:+ ". but specified " +:+ pretty argNum
                +:+ " arguments")
        else None
      else if negb (NumIn fnType =? argNum)%nat then
        Some ("expected function argument number is " +:+ pretty (NumIn fnType)
              +:+ " but specified " +:+ pretty argNum +:+ " arguments")
      else None in
    match arityError with
    | Some msg => errorf msg
    | None =>
        do args <- executeArgs t fnName fnType args Args data;
        do vs <- liftH (Call fn args);
        callResult vs
    end
  else errorf "not function".

Definition wrapExecute (t : Template) (err : error) : error :=
  if GoStrings.ContainsByte (str t) LF
  then wrapError ("failed to execute: " +:+ nl +:+ str t +:+ nl) err
  else wrapError ("failed to execute: " +:+ str t) err.

(** [Template.Execute], over the recursive calls. *)
Definition Execute_with (t : Template) (data : value) : M value :=
  recovered (mapErr (wrapExecute t) (executeExpr t (expr t) data)).

Definition executeLeftArrowExprArg (t : Template) (arg : Expr) (data : value)
  : M value :=
  let tt := {| str := ""; expr := arg; executingLeftArrowExprArg := true |} in
  Execute_with tt data.

(** The function handed to [UnmarshalArg]: the text is decoded into
    the destination of type [ty], the stashed functions are put back
    by the package-level [Execute(v, t.argFuncs)], and the result is
    converted to [ty] and stored. *)
Definition unmarshal (argStr : string) (stash : option (gmap string value))
    (ty : rtype) : HostM value :=
  hbind (yaml_Decode argStr ty) (fun v =>
  hbind (ExecuteData v stash) (fun arg =>
  fun h => (convert ty arg, h))).

Definition lazyFunc (f : value) : value :=
  VPtr (Some (VStruct "template.lazyFunc" [("f", f)])).

Definition executeLeftArrowExpr (t : Template) (Fun : Expr) (Arg : option Expr)
    (data : value) : M value :=
  do v <- executeExpr t Fun data;
  if implementsFunc v then
    let f := v in
    match Arg with
    | None => ret (lazyFunc f)
    | Some Arg =>
        do v <- executeLeftArrowExprArg t Arg data;
        match v with
        | VString argStr =>
            do arg <- (fun st =>
                         liftH (Func_UnmarshalArg f (unmarshal argStr (argFuncs st))) st);
            liftH (Func_Exec f arg)
        | _ => errorf ("expect string but got " +:+ TypeOf v)
        end
    end
  else errorf "expect template function but got *ast.LeftArrowExpr".

Definition executeDefinedExpr (t : Template) (Arg : Expr) (data : value) : M value :=
  match Arg with
  | Ident _ | SelectorExpr _ _ | IndexExpr _ _ =>
      match extract Arg data with
      | Ok _ => ret (VBool true)
      | Err err => if As_errNotDefined err then ret (VBool false) else fail err
      | Panic p => panic p
      end
  | _ => errorf "invalid argument to defined()"
  end.

End Evaluator.

(** [Template.executeExpr]. *)
Fixpoint executeExpr `{H : Host} (t : Template) (e : Expr) {struct e}
  : value -> M value :=
  fun data =>
    match e with
    | BasicLit Kind Value => executeBasicLit Kind Value
    | ParameterExpr X Quoted => executeParameterExpr executeExpr t X Quoted data
    | ParenExpr X => executeExpr t X data
    | UnaryExpr Op X => executeUnaryExpr executeExpr t Op X data
    | BinaryExpr X Op Y =>
        mapErr (wrapError "invalid operation") (executeBinaryExpr executeExpr t X Op Y data)
    | ConditionalExpr Condition X Y =>
        executeConditionalExpr executeExpr t Condition X Y data
    | Ident _ | SelectorExpr _ _ | IndexExpr _ _ => liftO (lookup e data)
    | CallExpr Fun Args => executeFuncCall executeExpr t Fun Args data
    | LeftArrowExpr Fun Arg => executeLeftArrowExpr executeExpr t Fun Arg data
    | DefinedExpr Arg => executeDefinedExpr t Arg data
    | BadExpr T => errorf ("unknown expression " +:+ dq +:+ T +:+ dq)
    end.

(** [Template.Execute]. *)
Definition Execute `{H : Host} (t : Template) (data : value) : M value :=
  Execute_with executeExpr t data.

(** [New]: the parsed template and the stash it points to, a fresh
    non-nil map. *)
Definition New `{H : Host} (s : string)
  : error + (Template * option (gmap string value)) :=
  match Parse s with
  | inl err => inl (wrapError ("failed to parse " +:+ dq +:+ s +:+ dq) err)
  | inr (inr T) => inl (errorString ("unknown node " +:+ dq +:+ T +:+ dq))
  | inr (inl e) =>
      inr ({| str := s; expr := e; executingLeftArrowExprArg := false |}, Some ∅)
  end.

(** *** The stash invariant *)

Definition stashName (i : nat) : string := "func-" +:+ pretty i.

(** The names of a stash are [func-0] up to [func-(n-1)], where [n] is
    its size: what [save] keeps, starting from the empty stash. *)
Definition stash_wf (s : gmap string value) : Prop :=
  forall name, is_Some (s !! name) <-> exists i, (i < size s)%nat /\ name = stashName i.

(** The stash of a state; the nil map has no entry. *)
Definition stash_of (st : state) : gmap string value :=
  match argFuncs st with Some s => s | None => ∅ end.

(** A computation keeps the stash in shape: from a stash with the names
    [func-0] .. [func-(n-1)] it leads to one of that shape again, which
    has every entry of the first. *)
Definition keeps {A} (m : M A) : Prop :=
  forall st o st', m st = (o, st') ->
    stash_wf (stash_of st) ->
    stash_wf (stash_of st') /\ stash_of st ⊆ stash_of st'.

(** *** The indent rule, in words *)

(** The lines of [S] after the first, each non-empty one behind
    [prefix]. *)
Definition indented_lines (prefix : string) (lines : list string) : list string :=
  match lines with
  | [] => []
  | l :: rest =>
      l :: map (fun s => if String.eqb s "" then s else prefix +:+ s) rest
  end.

(** The same with every line after the first behind [prefix], the
    empty ones too. *)
Definition indented_lines_all (prefix : string) (lines : list string) : list string :=
  match lines with
  | [] => []
  | l :: rest => l :: map (fun s => prefix +:+ s) rest
  end.

(** The run of spaces as wide, in runes, as the final line of [P]. *)
Definition indent_of (P : string) : string :=
  GoStrings.Repeat " " (GoStrings.RuneCount (GoStrings.last_piece (GoStrings.Split P LF))).

(** *** A small host, to run the evaluator on concrete data

    Names are looked up among the string keys of a map; scalars print
    and marshal in the obvious way; there are no helper functions. *)

Fixpoint lookupKey (name : string) (entries : list (value * value)) : option value :=
  match entries with
  | [] => None
  | (VString k, v) :: rest => if String.eqb k name then Some v else lookupKey name rest
  | _ :: rest => lookupKey name rest
  end.

Definition demoLookup (e : Expr) (data : value) : outcome value :=
  match e with
  | Ident name =>
      match data with
      | VMap entries =>
          match lookupKey name entries with
          | Some v => Ok v
          | None => Err (errNotDefined ("." +:+ name +:+ " not found"))
          end
      | _ => Err (errorString ("cannot look up ." +:+ name))
      end
  | _ => Err (errorString "unsupported path")
  end.

Definition ukind_name (k : ukind) : string :=
  match k with
  | Uint => "uint" | Uint8 => "uint8" | Uint16 => "uint16" | Uint32 => "uint32"
  | Uint64 => "uint64"
  end.

Definition demoTypeOf (v : value) : rtype :=
  match v with
  | VNil => "<nil>"
  | VBool _ => "bool"
  | VInt k _ => ikind_name k
  | VUint k _ => ukind_name k
  | VFloat Float32 _ => "float32"
  | VFloat Float64 _ => "float64"
  | VString _ => "string"
  | VBytes _ => "[]uint8"
  | VStruct T _ | VNamed T _ | VOpaque _ T _ => T
  | VFunc _ => "func()"
  | VSeq _ => "[]interface {}"
  | VMap _ => "map[string]interface {}"
  | VPtr _ => "*interface {}"
  end.

Definition demoSyntax (v : value) : string :=
  match v with
  | VBool true => "true"
  | VBool false => "false"
  | VInt k n => pretty (int_val k n)
  | VUint k n => pretty (uint_val k n)
  | VString s => dq +:+ s +:+ dq
  | _ => "(" +:+ demoTypeOf v +:+ ")"
  end.

Definition demoMarshal (v : value) : HostM string :=
  fun h =>
    match v with
    | VString s => (Ok (s +:+ nl), h)
    | VInt k n => (Ok (pretty (int_val k n) +:+ nl), h)
    | VBool b => (Ok ((if b then "true" else "false") +:+ nl), h)
    | _ => (Err (errorString "cannot marshal"), h)
    end.

Definition demoEqual (x y : value) : bool :=
  match underlying x, underlying y with
  | VBool a, VBool b => Bool.eqb a b
  | VInt k a, VInt _ b => (int_val k a =? int_val k b)%Z
  | VUint k a, VUint _ b => (uint_val k a =? uint_val k b)%Z
  | VString a, VString b => String.eqb a b
  | _, _ => false
  end.

Definition demoComparable (v : value) : bool :=
  match underlying v with
  | VBool _ | VInt _ _ | VUint _ _ | VFloat _ _ | VString _ => true
  | _ => false
  end.

Definition demoHost : Host := {|
  lookup := demoLookup;
  extract := demoLookup;
  comparable := demoComparable;
  reflectEqual := demoEqual;
  ParseFloat := fun s => inl (errorString "strconv.ParseFloat: not available");
  Quote := fun s => dq +:+ s +:+ dq;
  TypeOf := demoTypeOf;
  GoSyntax := demoSyntax;
  FuncType := fun _ => {| In := []; IsVariadic := false |};
  Type_Elem := fun ty => ty;
  Convert := fun _ v => (v, false);
  MethodByName := fun _ _ => None;
  Call := fun _ _ h => (Ok [], h);
  implementsFunc := fun _ => false;
  Func_Exec := fun _ arg h => (Ok arg, h);
  Func_UnmarshalArg := fun _ unmarshal h => unmarshal "interface {}" h;
  yaml_Marshal := demoMarshal;
  yaml_Decode := fun text _ h => (Ok (VString text), h);
  ExecuteData := fun v _ h => (Ok v, h);
  convert := fun _ v => Ok v;
  Parse := fun _ => inl (errorString "parser not available");
|}.

(** What [Execute] returns for a checked result [r] of a binary
    expression: the exact value when it fits 64 signed bits, the error
    with message [msg] otherwise. *)
Definition checked (t : Template) (r : Z) (msg : string) : outcome value :=
  if in_int64 r then Ok (VInt Int64 r)
  else Err (wrapExecute t (wrapError "invalid operation" (errorString msg))).

Definition emptyState : state := {| mem := []; argFuncs := Some ∅ |}.

(** The argument forms that [defined] accepts. *)
Definition isPath (e : Expr) : bool :=
  match e with
  | Ident _ | SelectorExpr _ _ | IndexExpr _ _ => true
  | _ => false
  end.

(** The text of the lines [ls], each behind a line feed. *)
Fixpoint lines_after (ls : list string) : string :=
  match ls with
  | [] => ""
  | s :: rest => nl +:+ s +:+ lines_after rest
  end.

(** Modelled from the spec: the parser is not among the sources; the
    template [{{-9223372036854775808}}] "parses as a positive
    9223372036854775808 followed by unary neg" (specification, section
    8), inside the parameter of the interpolation site. *)
Definition minInt64Literal : Expr :=
  ParameterExpr (Some (UnaryExpr SUB (BasicLit INT "9223372036854775808"))) false.

(** A prefix and a three-line text whose second line is empty. *)
Definition indentData : value :=
  VMap [(VString "p", VString "- ");
        (VString "s", VString ("a" +:+ nl +:+ nl +:+ "b"))].

(** Two byte slices over one backing array holding [ab]: [p] is its
    first byte, with the capacity of the array, and [q] is both bytes. *)
Definition sharedState : state :=
  {| mem := [["a"%char; "b"%char]]; argFuncs := Some ∅ |}.
Definition sharedP : slice := {| arr := 0; off := 0; len := 1; cap := 2 |}.
Definition sharedQ : slice := {| arr := 0; off := 0; len := 2; cap := 2 |}.
Definition sharedData : value :=
  VMap [(VString "p", VBytes sharedP); (VString "q", VBytes sharedQ)].

(** The child template of [executeLeftArrowExprArg]. *)
Definition reserialising (e : Expr) : Template :=
  {| str := ""; expr := e; executingLeftArrowExprArg := true |}.

Definition demoData : value :=
  VMap [(VString "max", VInt Int64 MaxInt64);
        (VString "one", VInt Int64 1);
        (VString "yes", VBool true);
        (VString "u", VUint Uint 3);
        (VString "zero", VUint Uint 0);
        (VString "f", VFunc "helper");
        (VString "s", VString "text")].

Definition template (e : Expr) : Template :=
  {| str := ""; expr := e; executingLeftArrowExprArg := false |}.

(** Data with an [int]: the literal of [{{a + 2}}] is an [int64]. *)
Definition mixedData : value := VMap [(VString "a", VInt Int 1)].

(** *** Induction on expressions, through the argument lists, the
    optional fields and the receiver of a called selector *)

Section ExprInduction.
Variable P : Expr -> Prop.
Hypothesis HBasicLit : forall k v, P (BasicLit k v).
Hypothesis HParameterExpr : forall X q, from_option P True X -> P (ParameterExpr X q).
Hypothesis HParenExpr : forall X, P X -> P (ParenExpr X).
Hypothesis HUnaryExpr : forall op X, P X -> P (UnaryExpr op X).
Hypothesis HBinaryExpr : forall X op Y, P X -> P Y -> P (BinaryExpr X op Y).
Hypothesis HConditionalExpr : forall C X Y, P C -> P X -> P Y -> P (ConditionalExpr C X Y).
Hypothesis HIdent : forall n, P (Ident n).
Hypothesis HSelectorExpr : forall X sel, P X -> P (SelectorExpr X sel).
Hypothesis HIndexExpr : forall X Ix, P X -> P Ix -> P (IndexExpr X Ix).
Hypothesis HCallExpr :
  forall F args,
    P F -> match F with SelectorExpr X _ => P X | _ => True end ->
    Forall P args -> P (CallExpr F args).
Hypothesis HLeftArrowExpr : forall F A, P F -> from_option P True A -> P (LeftArrowExpr F A).
Hypothesis HDefinedExpr : forall A, P A -> P (DefinedExpr A).
Hypothesis HBadExpr : forall T, P (BadExpr T).

Fixpoint Expr_induction (e : Expr) : P e :=
  match e with
  | BasicLit k v => HBasicLit k v
  | ParameterExpr X q =>
      HParameterExpr X q
        match X return from_option P True X with
        | Some x => Expr_induction x
        | None => Logic.I
        end
  | ParenExpr X => HParenExpr X (Expr_induction X)
  | UnaryExpr op X => HUnaryExpr op X (Expr_induction X)
  | BinaryExpr X op Y => HBinaryExpr X op Y (Expr_induction X) (Expr_induction Y)
  | ConditionalExpr C X Y =>
      HConditionalExpr C X Y (Expr_induction C) (Expr_induction X) (Expr_induction Y)
  | Ident n => HIdent n
  | SelectorExpr X sel => HSelectorExpr X sel (Expr_induction X)
  | IndexExpr X Ix => HIndexExpr X Ix (Expr_induction X) (Expr_induction Ix)
  | CallExpr F args =>
      HCallExpr F args (Expr_induction F)
        match F return match F with SelectorExpr X _ => P X | _ => True end with
        | SelectorExpr X _ => Expr_induction X
        | _ => Logic.I
        end
        ((fix go (l : list Expr) : Forall P l :=
            match l with
            | [] => @List.Forall_nil Expr P
            | x :: r => @List.Forall_cons Expr P x r (Expr_induction x) (go r)
            end) args)
  | LeftArrowExpr F A =>
      HLeftArrowExpr F A (Expr_induction F)
        match A return from_option P True A with
        | Some a => Expr_induction a
        | None => Logic.I
        end
  | DefinedExpr A => HDefinedExpr A (Expr_induction A)
  | BadExpr T => HBadExpr T
  end.
End ExprInduction.

End Template.

(** ** protocol/grpc/expect.go: the message and the details of the status *)

Module GrpcStatus.
Import Grpc.

(** [Expect.assertStatusMessage]. *)
Definition assertStatusMessage (e : Expect) (sts : option Status) : option string :=
  if String.eqb (es_Message (e_Status e)) "" then None
  else if String.eqb (Message sts) (es_Message (e_Status e)) then None
  else Some ("expected status.message is " +:+ dq +:+ es_Message (e_Status e) +:+ dq
             +:+ " but got " +:+ dq +:+ Message sts +:+ dq +:+ ": code=" +:+ dq
             +:+ Code_String (Code sts) +:+ dq +:+ ": details=[ " +:+ detailsString sts
             +:+ " ]").

(** The errors of [assertStatusDetails], by the place that returns them. *)
Inductive detailsError :=
| DetailNotFound (i : nat)
| DetailInvalidYaml (i : nat)
| DetailNotProto (i : nat) (expectName : string) (actual : detail)
| DetailWrongName (i : nat) (expectName name : string)
| DetailAssertion (err : string).

Section Details.
(** The expected detail object ([yaml.MapSlice]) and
    [assert.Build(expectDetail).Assert(actual)], of the [assert] package. *)
Variable D : Type.
Variable Assert : D -> detail -> option string.

(** The loop of [assertStatusDetails] from index [i] on; a map of
    [e.Status.Details] is the list of its entries. *)
Fixpoint assertStatusDetails_loop (i : nat) (expected : list (list (string * D)))
    (actualDetails : list detail) : option detailsError :=
  match expected with
  | [] => None
  | expecteDetailMap :: rest =>
      match actualDetails !! i with
      | None => Some (DetailNotFound i)
      | Some actual =>
          match expecteDetailMap with
          | [(expectName, expectDetail)] =>
              match actual with
              | DProto name _ =>
                  if negb (String.eqb name expectName)
                  then Some (DetailWrongName i expectName name)
                  else match Assert expectDetail actual with
                       | Some err => Some (DetailAssertion err)
                       | None => assertStatusDetails_loop (S i) rest actualDetails
                       end
              | _ => Some (DetailNotProto i expectName actual)
              end
          | _ => Some (DetailInvalidYaml i)
          end
      end
  end.

(** [Expect.assertStatusDetails], with [e.Status.Details] as [expected]. *)
Definition assertStatusDetails (expected : list (list (string * D)))
    (sts : option Status) : option detailsError :=
  if (length expected =? 0)%nat then None
  else assertStatusDetails_loop 0 expected (Details sts).

(** An expected detail, a map with the one entry [name: d], against an
    actual detail: a proto message of that name that the assertion built
    from [d] accepts. *)
Definition detail_matches (m : list (string * D)) (actual : detail) : Prop :=
  exists name d text,
    m = [(name, d)] /\ actual = DProto name text /\ Assert d actual = None.

End Details.

(** The codes that [codes.Code.String] has a name for, and what a row of
    the table of names and numbers must satisfy. *)
Definition codes : list Z := map Z.of_nat (seq 0 17).

Definition code_row (c c' : Z) : bool :=
  Bool.eqb (String.eqb (Code_String c) (Code_String c')) (c =? c')%Z
  && negb (String.eqb (Code_String c) (Itoa c'))
  && Bool.eqb (String.eqb (Itoa (int32_of c)) (Itoa c')) (c =? c')%Z
  && negb (String.eqb (Itoa (int32_of c)) (Code_String c')).

(** An expectation on the message, and details to run the loop on. *)
Definition expectMessage : Expect :=
  {| e_Code := ""; e_Status := {| es_Code := ""; es_Message := "no such user" |} |}.

Definition acceptAll (d : unit) (actual : detail) : option string := None.

Definition twoDetails : option Status :=
  Some {| st_code := 5; st_message := "no such user";
          st_details := [DProto "google.rpc.ErrorInfo" "reason: x";
                         DProto "google.rpc.Help" "links: y"] |}.

End GrpcStatus.

(** ** Notions to state further properties of the summary and of the
       evaluator *)

Module ReporterCounts.
Import Reporter.

Section WithEnv.
Context {E : Env}.

(** A result string that [append] has a case for. *)
Definition known (result : string) : bool :=
  String.eqb result TestResultPassed_String
  || String.eqb result TestResultFailed_String
  || String.eqb result TestResultSkipped_String.

Definition paths_with (result : string) (calls : list (string * string)) : list string :=
  map fst (List.filter (fun c => String.eqb (snd c) result) calls).

End WithEnv.

End ReporterCounts.

Module TemplateAux.
Import Template.

(** A slice header that lies within an array of the heap. *)
Definition slice_wf (h : heap) (s : slice) : Prop :=
  exists a, h !! arr s = Some a /\ (off s + cap s <= length a)%nat /\ (len s <= cap s)%nat.

(** A string without a line feed. *)
Definition no_LF (s : string) : Prop := GoStrings.ContainsByte s LF = false.

(** Whether a left-arrow expression occurs in an expression. *)
Fixpoint has_arrow (e : Expr) : bool :=
  match e with
  | BasicLit _ _ | Ident _ | BadExpr _ => false
  | ParameterExpr X _ => match X with Some x => has_arrow x | None => false end
  | ParenExpr X | UnaryExpr _ X | SelectorExpr X _ | DefinedExpr X => has_arrow X
  | BinaryExpr X _ Y | IndexExpr X Y => has_arrow X || has_arrow Y
  | ConditionalExpr C X Y => has_arrow C || has_arrow X || has_arrow Y
  | CallExpr F args =>
      has_arrow F || (fix any (l : list Expr) : bool :=
                        match l with
                        | [] => false
                        | x :: r => has_arrow x || any r
                        end) args
  | LeftArrowExpr _ _ => true
  end.

(** A computation that leaves the stash as it is. *)
Definition same_stash {A} (m : M A) : Prop :=
  forall st o st', m st = (o, st') -> argFuncs st' = argFuncs st.

(** More data for the small host: the least integer and minus one, a
    value of a defined type, and a nil. *)
Definition edgeData : value :=
  VMap [(VString "min", VInt Int64 MinInt64);
        (VString "m1", VInt Int64 (-1));
        (VString "d", VNamed "time.Duration" (VInt Int64 5));
        (VString "nothing", VNil)].

(** The small host with every function value a left-arrow function. *)
Definition arrowHost : Host := {|
  lookup := demoLookup;
  extract := demoLookup;
  comparable := demoComparable;
  reflectEqual := demoEqual;
  ParseFloat := @ParseFloat demoHost;
  Quote := @Quote demoHost;
  TypeOf := demoTypeOf;
  GoSyntax := demoSyntax;
  FuncType := @FuncType demoHost;
  Type_Elem := @Type_Elem demoHost;
  Convert := @Convert demoHost;
  MethodByName := @MethodByName demoHost;
  Call := @Call demoHost;
  implementsFunc := fun v => match v with VFunc _ => true | _ => false end;
  Func_Exec := @Func_Exec demoHost;
  Func_UnmarshalArg := @Func_UnmarshalArg demoHost;
  yaml_Marshal := demoMarshal;
  yaml_Decode := @yaml_Decode demoHost;
  ExecuteData := @ExecuteData demoHost;
  convert := @convert demoHost;
  Parse := @Parse demoHost;
|}.

End TemplateAux.

(** * Properties *)

(** ** Strings *)

Module StringFacts.

Lemma app_cons_s (x : ascii) (a b : string) : String x a +:+ b = String x (a +:+ b).
Proof. reflexivity. Qed.

Lemma app_assoc_s (a b c : string) : (a +:+ b) +:+ c = a +:+ (b +:+ c).
Proof.
  induction a as [|x a IH]; [reflexivity|].
  rewrite !app_cons_s. now rewrite IH.
Qed.

Lemma app_nil_r_s (a : string) : a +:+ "" = a.
Proof.
  induction a as [|x a IH]; [reflexivity|].
  rewrite app_cons_s. now rewrite IH.
Qed.

End StringFacts.

(** ** The test summary *)

Module ReporterProps.
Import Reporter StringFacts.

Section WithEnv.
Context {E : Env}.

Lemma eqb_app_tab (a b : string) : String.eqb (a +:+ tab +:+ b) "" = false.
Proof. destruct a; reflexivity. Qed.

Lemma failedFiles_loop_started (result : string) (fs : list string) :
  result <> "" ->
  failedFiles_loop result fs = result +:+ failedLines fs.
Proof.
  revert result. induction fs as [|f rest IH]; intros result Hne; simpl.
  - now rewrite app_nil_r_s.
  - destruct (String.eqb_spec result "") as [->|_]; [congruence|].
    rewrite IH.
    + now rewrite !app_assoc_s.
    + intros Heq. pose proof (eqb_app_tab result ("- " +:+ f +:+ nl)) as Hb.
      rewrite Heq in Hb. discriminate.
Qed.

Lemma failedFiles_loop_fresh (fs : list string) :
  fs <> [] ->
  failedFiles_loop "" fs = "Failed tests:" +:+ nl +:+ failedLines fs.
Proof.
  destruct fs as [|f rest]; [congruence|]. intros _.
  cbn [failedFiles_loop]. rewrite String.eqb_refl.
  rewrite failedFiles_loop_started by (intros Heq; discriminate Heq).
  cbn [failedLines]. now rewrite !app_assoc_s.
Qed.

Lemma failedFiles_shape (s : testSummary) :
  failedFiles s =
    match failed s with
    | [] => ""
    | _ :: _ => "Failed tests:" +:+ nl +:+ failedLines (failed s) +:+ nl
    end.
Proof.
  unfold failedFiles. destruct (failed s) as [|f rest] eqn:Hf; [reflexivity|].
  cbn [length Nat.eqb]. rewrite failedFiles_loop_fresh by congruence.
  now rewrite !app_assoc_s.
Qed.

Lemma append_unknown (s : testSummary) (path result : string) :
  result <> TestResultPassed_String ->
  result <> TestResultFailed_String ->
  result <> TestResultSkipped_String ->
  append s path result = s.
Proof.
  intros Hp Hf Hs. unfold append.
  destruct (String.eqb_spec result TestResultPassed_String); [congruence|].
  destruct (String.eqb_spec result TestResultFailed_String); [congruence|].
  destruct (String.eqb_spec result TestResultSkipped_String); [congruence|].
  reflexivity.
Qed.

(** C9: on the summary reached by any sequence of [append] calls from a
    fresh one, a call with a result string that is none of the three
    known ones changes nothing; the text of [String] starts with the
    count [len(passed)+len(failed)+len(skipped)] followed by
    [" tests run"]; and the block handed to the colour printer is empty
    when no test failed and starts with ["Failed tests:"] otherwise. *)
Theorem summary_counts_and_failed_block
    (calls : list (string * string)) (path result : string) (noColor : bool) :
  let s := appendAll calls in
  (result <> TestResultPassed_String ->
   result <> TestResultFailed_String ->
   result <> TestResultSkipped_String ->
   passed (append s path result) = passed s
   /\ failed (append s path result) = failed s
   /\ skipped (append s path result) = skipped s)
  /\ String_ s noColor =
       nl +:+ pretty (length (passed s) + length (failed s) + length (skipped s))%nat
          +:+ " tests run" +:+ ": "
          +:+ color_wrap (passColor noColor) (pretty (length (passed s)) +:+ " passed")
          +:+ ", "
          +:+ color_wrap (failColor noColor) (pretty (length (failed s)) +:+ " failed")
          +:+ ", "
          +:+ color_wrap (skipColor noColor) (pretty (length (skipped s)) +:+ " skipped")
          +:+ nl +:+ nl
          +:+ color_wrap (failColor noColor) (Sprintf_noargs (failedFiles s))
  /\ (failed s = [] <-> failedFiles s = "")
  /\ (failed s <> [] ->
      failedFiles s = "Failed tests:" +:+ nl +:+ failedLines (failed s) +:+ nl).
Proof.
  intros s. repeat split.
  - rewrite append_unknown; auto.
  - rewrite append_unknown; auto.
  - rewrite append_unknown; auto.
  - unfold String_, totalText. now rewrite !app_assoc_s.
  - intros Hf. rewrite failedFiles_shape, Hf. reflexivity.
  - rewrite failedFiles_shape. destruct (failed s); [reflexivity|]. discriminate.
  - intros Hne. rewrite failedFiles_shape. destruct (failed s); [congruence|reflexivity].
Qed.

End WithEnv.

Lemma summary_counts_and_failed_block_witness :
  passed (append (E := plainEnv) (appendAll (E := plainEnv)
            [("a.yaml", "passed"); ("b.yaml", "failed"); ("c.yaml", "other")])
            "d.yaml" "undefined")
  = ["a.yaml"]
  /\ failedFiles (appendAll (E := plainEnv)
            [("a.yaml", "passed"); ("b.yaml", "failed"); ("c.yaml", "other")])
     = "Failed tests:" +:+ nl +:+ tab +:+ "- b.yaml" +:+ nl +:+ nl.
Proof.
  destruct (summary_counts_and_failed_block (E := plainEnv)
              [("a.yaml", "passed"); ("b.yaml", "failed"); ("c.yaml", "other")]
              "d.yaml" "undefined" true) as (Hunknown & _ & _ & Hblock).
  split.
  - destruct Hunknown as (Hp & _ & _); [discriminate | discriminate | discriminate |].
    rewrite Hp. reflexivity.
  - rewrite Hblock; [reflexivity | discriminate].
Defined.

End ReporterProps.

(** ** The gRPC status code *)

Module GrpcProps.
Import Grpc.

Lemma expectedCode_cases (e : Expect) :
  (e_Code e = "" -> es_Code (e_Status e) = "" -> expectedCode e = "OK")
  /\ (es_Code (e_Status e) <> "" -> expectedCode e = es_Code (e_Status e))
  /\ (es_Code (e_Status e) = "" -> e_Code e <> "" -> expectedCode e = e_Code e).
Proof.
  unfold expectedCode.
  destruct (String.eqb_spec (e_Code e) ""), (String.eqb_spec (es_Code (e_Status e)) "");
    simpl; repeat split; intros; congruence.
Qed.

(** C10: [assertStatusCode] returns nil exactly when the name of the
    actual code, or the decimal form of the code as an [int32], is the
    expected code; the expected code is ["OK"] when both fields are
    empty, [Status.Code] when that is set, and [Code] otherwise. *)
Theorem assertStatusCode_succeeds_iff (e : Expect) (sts : option Status) :
  (assertStatusCode e sts = None <->
     Code_String (Code sts) = expectedCode e
     \/ Itoa (int32_of (Code sts)) = expectedCode e)
  /\ (e_Code e = "" -> es_Code (e_Status e) = "" -> expectedCode e = "OK")
  /\ (es_Code (e_Status e) <> "" -> expectedCode e = es_Code (e_Status e))
  /\ (es_Code (e_Status e) = "" -> e_Code e <> "" -> expectedCode e = e_Code e).
Proof.
  split; [|apply expectedCode_cases].
  unfold assertStatusCode.
  destruct (String.eqb_spec (Code_String (Code sts)) (expectedCode e)) as [Hn|Hn].
  - split; auto.
  - destruct (String.eqb_spec (Itoa (int32_of (Code sts))) (expectedCode e)) as [Hi|Hi].
    + split; auto.
    + split; [discriminate|]. intros [H|H]; contradiction.
Qed.

Lemma assertStatusCode_succeeds_iff_witness :
  assertStatusCode expectFive notFound = None /\ expectedCode expectFive = "5".
Proof.
  destruct (assertStatusCode_succeeds_iff expectFive notFound) as (Hiff & _ & Hst & _).
  split.
  - apply Hiff. right. reflexivity.
  - apply Hst. discriminate.
Defined.

End GrpcProps.

(** ** The template evaluator *)

Module TemplateProps.
Import Template StringFacts.

(** *** 64-bit arithmetic *)

Local Open Scope Z_scope.

Lemma in_int64_spec n : in_int64 n = true <-> fits n.
Proof. unfold in_int64, fits. rewrite andb_true_iff, !Z.leb_le. tauto. Qed.

Lemma int64_fits n : fits n -> int64 n = n.
Proof.
  unfold fits, MinInt64, MaxInt64, int64, wrap_signed. intros Hn.
  rewrite Z.mod_small; lia.
Qed.

Lemma wrap_signed_fits bits n :
  0 < bits -> - 2 ^ (bits - 1) <= wrap_signed bits n <= 2 ^ (bits - 1) - 1.
Proof.
  intros Hb. unfold wrap_signed.
  assert (H2 : 2 ^ bits = 2 * 2 ^ (bits - 1)).
  { rewrite <- Z.pow_succ_r by lia. f_equal. lia. }
  pose proof (Z.mod_pos_bound (n + 2 ^ (bits - 1)) (2 ^ bits)) as Hm.
  assert (0 < 2 ^ (bits - 1)) by (apply Z.pow_pos_nonneg; lia).
  lia.
Qed.

Lemma int_val_fits k n : fits (int_val k n).
Proof.
  unfold int_val, fits, MinInt64, MaxInt64.
  pose proof (wrap_signed_fits (ibits k) n) as Hw.
  destruct k; cbn [ibits] in *; change (64 - 1) with 63 in *;
    cbn in Hw |- *; lia.
Qed.

Lemma quot_split (N d : Z) :
  d <> 0 ->
  exists q r, N ÷ d = q /\ N = d * q + r /\ Z.abs r < Z.abs d
              /\ (0 <= N -> 0 <= r) /\ (N <= 0 -> r <= 0).
Proof.
  intros Hd. exists (N ÷ d), (Z.rem N d). repeat split.
  - apply Z.quot_rem'.
  - now apply Z.rem_bound_abs.
  - now apply Z.rem_nonneg.
  - now apply Z.rem_nonpos.
Qed.

Ltac bool_cases :=
  repeat match goal with
    | |- context [(?a >? ?b)] => rewrite (Z.gtb_ltb a b)
    | |- context [(?a >=? ?b)] => rewrite (Z.geb_leb a b)
    end;
  repeat match goal with
    | |- context [(?a <? ?b)] => destruct (Z.ltb_spec a b)
    | |- context [(?a <=? ?b)] => destruct (Z.leb_spec a b)
    | |- context [(?a =? ?b)] => destruct (Z.eqb_spec a b)
    end;
  cbn [andb orb negb]; try reflexivity; try lia.

Ltac unfold_bounds := unfold fits, in_int64, MinInt64, MaxInt64 in *.

Ltac fits_tac := unfold_bounds; lia.

Lemma add_test a b :
  fits a -> fits b ->
  ((b >? 0) && (a >? int64 (MaxInt64 - b)) || (b <? 0) && (a <? int64 (MinInt64 - b)))
  = negb (in_int64 (a + b)).
Proof.
  intros Ha Hb. rewrite !Z.gtb_ltb.
  destruct (Z.ltb_spec 0 b); destruct (Z.ltb_spec b 0); cbn [andb orb]; try lia.
  - rewrite (int64_fits (MaxInt64 - b)) by fits_tac. unfold_bounds. bool_cases.
  - rewrite (int64_fits (MinInt64 - b)) by fits_tac. unfold_bounds. bool_cases.
  - unfold_bounds. bool_cases.
Qed.

Lemma sub_test a b :
  fits a -> fits b ->
  ((b <? 0) && (a >? int64 (MaxInt64 + b)) || (b >? 0) && (a <? int64 (MinInt64 + b)))
  = negb (in_int64 (a - b)).
Proof.
  intros Ha Hb. rewrite !Z.gtb_ltb.
  destruct (Z.ltb_spec 0 b); destruct (Z.ltb_spec b 0); cbn [andb orb]; try lia.
  - rewrite (int64_fits (MinInt64 + b)) by fits_tac. unfold_bounds. bool_cases.
  - rewrite (int64_fits (MaxInt64 + b)) by fits_tac. unfold_bounds. bool_cases.
  - unfold_bounds. bool_cases.
Qed.

Lemma quot_fits N d : fits N -> d <> 0 -> d <> -1 -> fits (N ÷ d).
Proof.
  intros HN Hd Hd1. destruct (quot_split N d Hd) as (q & r & -> & Heq & Hr & Hpos & Hneg).
  unfold_bounds. nia.
Qed.

Lemma quot_fits_max d : d <> 0 -> fits (MaxInt64 ÷ d).
Proof.
  intros Hd. destruct (quot_split MaxInt64 d Hd) as (q & r & -> & Heq & Hr & Hpos & Hneg).
  unfold_bounds. nia.
Qed.

Lemma mul_test a b :
  fits a -> fits b ->
  ((a >? 0) && (b >? 0) && (a >? int64 (MaxInt64 ÷ b))
   || (a <? 0) && (b <? 0) && (a <? int64 (MaxInt64 ÷ b))
   || (a >? 0) && (b <? 0) && (b <? int64 (MinInt64 ÷ a))
   || (a <? 0) && (b >? 0) && (a <? int64 (MinInt64 ÷ b)))
  = negb (in_int64 (a * b)).
Proof.
  intros Ha Hb. rewrite !Z.gtb_ltb.
  destruct (Z.ltb_spec 0 a); destruct (Z.ltb_spec a 0); try lia;
    destruct (Z.ltb_spec 0 b); destruct (Z.ltb_spec b 0); try lia;
    cbn [andb orb].
  - rewrite (int64_fits (MaxInt64 ÷ b)) by (apply quot_fits_max; lia).
    destruct (quot_split MaxInt64 b) as (q & r & -> & Heq & Hr & Hpos & Hneg); [lia|].
    unfold_bounds. bool_cases; nia.
  - rewrite (int64_fits (MinInt64 ÷ a)) by (apply quot_fits; [fits_tac|lia|lia]).
    destruct (quot_split MinInt64 a) as (q & r & -> & Heq & Hr & Hpos & Hneg); [lia|].
    unfold_bounds. bool_cases; nia.
  - unfold_bounds. bool_cases; nia.
  - rewrite (int64_fits (MinInt64 ÷ b)) by (apply quot_fits; [fits_tac|lia|lia]).
    destruct (quot_split MinInt64 b) as (q & r & -> & Heq & Hr & Hpos & Hneg); [lia|].
    unfold_bounds. bool_cases; nia.
  - rewrite (int64_fits (MaxInt64 ÷ b)) by (apply quot_fits_max; lia).
    destruct (quot_split MaxInt64 b) as (q & r & -> & Heq & Hr & Hpos & Hneg); [lia|].
    unfold_bounds. bool_cases; nia.
  - unfold_bounds. bool_cases; nia.
  - unfold_bounds. bool_cases; nia.
  - unfold_bounds. bool_cases; nia.
  - unfold_bounds. bool_cases; nia.
Qed.

Local Close Scope Z_scope.

(** *** The evaluator, step by step *)

Section WithHost.
Context {H : Host}.

Lemma underlying_of_int x k :
  Kind_of x = KInt k -> exists n, underlying x = VInt k n.
Proof.
  induction x; cbn [Kind_of underlying]; intros Hk; try discriminate; eauto.
  injection Hk as ->. eauto.
Qed.

Lemma Convert_int64_of_kind x k :
  Kind_of x = KInt k -> exists a, Convert_int64 x = Some a /\ fits a.
Proof.
  intros Hk. destruct (underlying_of_int x k Hk) as [n Hn].
  unfold Convert_int64. rewrite Hn. eexists; split; [reflexivity|apply int_val_fits].
Qed.

Lemma executeBinaryExpr_operands t X op Y data st st1 st2 x y :
  executeExpr t X data st = (Ok x, st1) ->
  executeExpr t Y data st1 = (Ok y, st2) ->
  Kind_of x = Kind_of y ->
  op <> EQL -> op <> NEQ ->
  executeBinaryExpr executeExpr t X op Y data st = binary_switch t op Y x y st2.
Proof.
  intros HX HY Hk Hne1 Hne2. unfold executeBinaryExpr, bind. rewrite HX, HY.
  destruct (decide (Kind_of x = Kind_of y)) as [_|Hn]; [|contradiction].
  unfold readH. destruct (equal (mem st2) x y) as [b ok].
  destruct op; try reflexivity; congruence.
Qed.

Lemma binary_switch_int t op Y x y k a b st :
  Kind_of x = KInt k -> Convert_int64 x = Some a -> Convert_int64 y = Some b ->
  forall o, int_binary op a b = Some o ->
  binary_switch t op Y x y st = (o, st).
Proof.
  intros Hk Ha Hb o Ho. unfold binary_switch. rewrite Hk, Ha, Hb, Ho. reflexivity.
Qed.

Lemma Execute_binary t X op Y data st o st' :
  expr t = BinaryExpr X op Y ->
  executeBinaryExpr executeExpr t X op Y data st = (o, st') ->
  Execute t data st =
    (match o with
     | Ok v => Ok v
     | Err e => Err (wrapExecute t (wrapError "invalid operation" e))
     | Panic p => Err (errorString ("failed to execute: panic: " +:+ p))
     end, st').
Proof.
  intros He Hb. unfold Execute, Execute_with, recovered, mapErr. rewrite He.
  cbn [executeExpr]. unfold mapErr. rewrite Hb. destruct o; reflexivity.
Qed.

Lemma Execute_int_arith t X op Y data st st1 st2 x y k a b r sym :
  expr t = BinaryExpr X op Y ->
  executeExpr t X data st = (Ok x, st1) ->
  executeExpr t Y data st1 = (Ok y, st2) ->
  Kind_of x = KInt k -> Kind_of y = KInt k ->
  Convert_int64 x = Some a -> Convert_int64 y = Some b ->
  op <> EQL -> op <> NEQ ->
  int_binary op a b =
    Some (if negb (in_int64 r)
          then Err (errorString (pretty a +:+ sym +:+ pretty b +:+ " overflows int"))
          else Ok (VInt Int64 (int64 r))) ->
  Execute t data st =
    (checked t r (pretty a +:+ sym +:+ pretty b +:+ " overflows int"), st2).
Proof.
  intros He HX HY Hkx Hky Ha Hb Hn1 Hn2 Hop.
  erewrite Execute_binary; [|exact He|].
  2:{ erewrite executeBinaryExpr_operands; [|exact HX|exact HY|congruence|exact Hn1|exact Hn2].
      eapply binary_switch_int; eauto. }
  unfold checked. destruct (in_int64 r) eqn:Hr; cbn [negb]; [|reflexivity].
  rewrite int64_fits by (now apply in_int64_spec). reflexivity.
Qed.

(** C1, amended: when the operands of a binary expression evaluate to
    values of signed integer kinds, the kinds are compared first.  Operands
    of two different kinds (an [int] and an [int64], say) are rejected with
    the mismatched-types error for every operator, whatever their values.
    For operands of one kind, with [a] and [b] their conversions to 64-bit
    integers, [Execute] on [+], [-] or [*] returns the overflow error if
    the exact result is outside the 64-bit signed range and the exact
    result otherwise; [/] and [%] by a zero [b] return the
    division-by-zero error. *)
Theorem signed_arithmetic_is_checked
    (t : Template) (X : Expr) (op : Token) (Y : Expr) (data : value)
    (st st1 st2 : state) (x y : value) (kx ky : ikind) :
  expr t = BinaryExpr X op Y ->
  executeExpr t X data st = (Ok x, st1) ->
  executeExpr t Y data st1 = (Ok y, st2) ->
  Kind_of x = KInt kx -> Kind_of y = KInt ky ->
  (kx <> ky ->
   Execute t data st =
     (Err (wrapExecute t
             (wrapError "invalid operation"
                (errorString (GoSyntax x +:+ " " +:+ Token_String op +:+ " " +:+ GoSyntax y
                              +:+ ": mismatched types " +:+ TypeOf x +:+ " and "
                              +:+ TypeOf y)))),
      st2))
  /\ (kx = ky ->
      exists a b : Z,
        Convert_int64 x = Some a /\ Convert_int64 y = Some b /\ fits a /\ fits b
        /\ (op = ADD ->
            Execute t data st =
              (checked t (a + b) (pretty a +:+ " + " +:+ pretty b +:+ " overflows int"), st2))
        /\ (op = SUB ->
            Execute t data st =
              (checked t (a - b) (pretty a +:+ " - " +:+ pretty b +:+ " overflows int"), st2))
        /\ (op = MUL ->
            Execute t data st =
              (checked t (a * b) (pretty a +:+ " * " +:+ pretty b +:+ " overflows int"), st2))
        /\ (op = QUO \/ op = REM -> b = 0%Z ->
            Execute t data st =
              (Err (wrapExecute t (wrapError "invalid operation" (errorString "division by 0"))),
               st2))).
Proof.
  intros He HX HY Hkx Hky. split.
  { intros Hne. erewrite Execute_binary; [|exact He|].
    2:{ unfold executeBinaryExpr, bind. rewrite HX, HY.
        destruct (decide (Kind_of x = Kind_of y)) as [Heq|_]; [|reflexivity].
        rewrite Hkx, Hky in Heq. congruence. }
    reflexivity. }
  intros Hk. subst ky. rename kx into k.
  destruct (Convert_int64_of_kind x k Hkx) as (a & Ha & Hfa).
  destruct (Convert_int64_of_kind y k Hky) as (b & Hb & Hfb).
  exists a, b. repeat split; try assumption; try apply Hfa; try apply Hfb.
  - intros ->. eapply Execute_int_arith; eauto; try discriminate.
    cbn [int_binary]. now rewrite add_test.
  - intros ->. eapply Execute_int_arith; eauto; try discriminate.
    cbn [int_binary]. now rewrite sub_test.
  - intros ->. eapply Execute_int_arith; eauto; try discriminate.
    cbn [int_binary]. now rewrite mul_test.
  - intros Hop ->.
    erewrite Execute_binary; [|exact He|].
    2:{ erewrite executeBinaryExpr_operands;
          [|exact HX|exact HY|congruence|destruct Hop; subst; discriminate
           |destruct Hop; subst; discriminate].
        eapply binary_switch_int; eauto.
        destruct Hop; subst; reflexivity. }
    reflexivity.
Qed.

(** C2: the right operand is evaluated whatever the left one is: when the
    left operand evaluates to a value and the right one fails, the binary
    expression fails with that error, which [Execute] returns wrapped;
    when both are booleans, the result of [&&] and [||] comes with the
    state the right operand left. *)
Theorem binary_operands_are_both_evaluated
    (t : Template) (X : Expr) (op : Token) (Y : Expr) (data : value)
    (st st1 : state) (x : value) :
  executeExpr t X data st = (Ok x, st1) ->
  (forall e st2,
      executeExpr t Y data st1 = (Err e, st2) ->
      executeBinaryExpr executeExpr t X op Y data st = (Err e, st2)
      /\ (expr t = BinaryExpr X op Y ->
          Execute t data st =
            (Err (wrapExecute t (wrapError "invalid operation" e)), st2)))
  /\ (forall xb yb st2,
        x = VBool xb ->
        executeExpr t Y data st1 = (Ok (VBool yb), st2) ->
        (op = LAND ->
         executeBinaryExpr executeExpr t X op Y data st = (Ok (VBool (xb && yb)), st2))
        /\ (op = LOR ->
            executeBinaryExpr executeExpr t X op Y data st = (Ok (VBool (xb || yb)), st2))).
Proof.
  intros HX. split.
  - intros e st2 HY.
    assert (Hb : executeBinaryExpr executeExpr t X op Y data st = (Err e, st2)).
    { unfold executeBinaryExpr, bind. rewrite HX, HY. reflexivity. }
    split; [exact Hb|]. intros He. now rewrite (Execute_binary _ _ _ _ _ _ _ _ He Hb).
  - intros xb yb st2 -> HY. split; intros ->.
    + erewrite executeBinaryExpr_operands; [|exact HX|exact HY|reflexivity|discriminate..].
      reflexivity.
    + erewrite executeBinaryExpr_operands; [|exact HX|exact HY|reflexivity|discriminate..].
      reflexivity.
Qed.

(** C3: [Execute] never ends in a panic; a panic of the evaluation comes
    back as the error [failed to execute: panic: <reason>]. *)
Theorem Execute_recovers_panics (t : Template) (data : value) (st : state) :
  (forall reason, fst (Execute t data st) <> Panic reason)
  /\ (forall reason st',
        executeExpr t (expr t) data st = (Panic reason, st') ->
        exists err,
          Execute t data st = (Err err, st')
          /\ Error err = "failed to execute: panic: " +:+ reason).
Proof.
  unfold Execute, Execute_with, recovered, mapErr. split.
  - intros reason. destruct (executeExpr t (expr t) data st) as [[v|e|p] st'];
      cbn; discriminate.
  - intros reason st' ->. eexists. split; reflexivity.
Qed.

(** A panic while a left-arrow argument is evaluated is recovered by the
    [Execute] of the child template: the parent sees an error. *)
Lemma panic_in_arrow_argument (t : Template) (arg : Expr) (data : value)
    (st st' : state) (reason : string) :
  executeExpr {| str := ""; expr := arg; executingLeftArrowExprArg := true |} arg data st
    = (Panic reason, st') ->
  executeLeftArrowExprArg executeExpr t arg data st
    = (Err (errorString ("failed to execute: panic: " +:+ reason)), st').
Proof.
  intros Hp. unfold executeLeftArrowExprArg, Execute_with, recovered, mapErr.
  cbn [expr]. now rewrite Hp.
Qed.

(** *** The stash *)

Lemma stashName_inj (i j : nat) : stashName i = stashName j -> i = j.
Proof.
  unfold stashName. intros Heq.
  repeat rewrite app_cons_s in Heq. injection Heq as Heq.
  change ("" +:+ pretty i = "" +:+ pretty j) in Heq. cbv [append] in Heq.
  now apply (inj pretty) in Heq.
Qed.

Lemma stash_wf_empty : stash_wf ∅.
Proof.
  intros name. rewrite lookup_empty, map_size_empty. split.
  - intros [v Hv]. discriminate.
  - intros (i & Hi & _). lia.
Qed.

Lemma save_name_is_fresh (s : gmap string value) :
  stash_wf s -> s !! stashName (size s) = None.
Proof.
  intros Hwf. destruct (s !! stashName (size s)) as [v|] eqn:Hl; [|reflexivity].
  destruct (proj1 (Hwf _) (mk_is_Some _ _ Hl)) as (i & Hi & Heq).
  apply stashName_inj in Heq. lia.
Qed.

Lemma save_keeps_stash_wf (s : gmap string value) (v : value) :
  stash_wf s ->
  stash_wf (<[stashName (size s) := v]> s)
  /\ size (<[stashName (size s) := v]> s) = S (size s).
Proof.
  intros Hwf. pose proof (save_name_is_fresh s Hwf) as Hfresh.
  assert (Hsize : size (<[stashName (size s) := v]> s) = S (size s))
    by now apply map_size_insert_None.
  split; [|exact Hsize].
  intros name. rewrite Hsize, lookup_insert_is_Some. split.
  - intros [<-|[_ Hs]].
    + exists (size s). split; [lia|reflexivity].
    + destruct (proj1 (Hwf name) Hs) as (i & Hi & ->). exists i. split; [lia|reflexivity].
  - intros (i & Hi & ->). destruct (decide (i = size s)) as [->|Hne].
    + now left.
    + right. split.
      * intros Heq. apply stashName_inj in Heq. congruence.
      * apply Hwf. exists i. split; [lia|reflexivity].
Qed.

Lemma TrimSuffixLF_app_nl (b : string) : GoStrings.TrimSuffixLF (b +:+ nl) = b.
Proof.
  induction b as [|a b IH]; [reflexivity|].
  rewrite app_cons_s. cbn [GoStrings.TrimSuffixLF].
  destruct (b +:+ nl) eqn:Hb.
  - destruct b; discriminate Hb.
  - now rewrite IH.
Qed.

(** *** The stash through an evaluation *)

Lemma keeps_same {A} (m : M A) :
  (forall st o st', m st = (o, st') -> argFuncs st' = argFuncs st) -> keeps m.
Proof.
  intros Hsame st o st' Hm Hwf. unfold stash_of. rewrite (Hsame _ _ _ Hm). split; [exact Hwf|reflexivity].
Qed.

Lemma keeps_ret {A} (a : A) : keeps (ret a).
Proof. apply keeps_same. intros st o st' [= _ <-]. reflexivity. Qed.

Lemma keeps_fail {A} (e : error) : keeps (@fail A e).
Proof. apply keeps_same. intros st o st' [= _ <-]. reflexivity. Qed.

Lemma keeps_errorf {A} (msg : string) : keeps (@errorf A msg).
Proof. apply keeps_fail. Qed.

Lemma keeps_panic {A} (p : string) : keeps (@panic A p).
Proof. apply keeps_same. intros st o st' [= _ <-]. reflexivity. Qed.

Lemma keeps_liftO {A} (o : outcome A) : keeps (liftO o).
Proof. apply keeps_same. intros st o' st' [= _ <-]. reflexivity. Qed.

Lemma keeps_readH {A} (f : heap -> A) : keeps (readH f).
Proof. apply keeps_same. intros st o' st' [= _ <-]. reflexivity. Qed.

Lemma keeps_liftH {A} (m : HostM A) : keeps (liftH m).
Proof.
  apply keeps_same. intros st o st'. unfold liftH.
  destruct (m (mem st)) as [o' h]. intros [= _ <-]. reflexivity.
Qed.

Lemma keeps_append_bytes xb yb : keeps (append_bytes xb yb).
Proof.
  apply keeps_same. intros st o st'. unfold append_bytes.
  destruct (len xb + len yb <=? cap xb)%nat; intros [= _ <-]; reflexivity.
Qed.

Lemma keeps_save (f : value) : keeps (save f).
Proof.
  intros st o st'. unfold save. fold (stash_of st). intros [= _ <-] Hwf.
  unfold stash_of at 1 3. cbn [argFuncs]. fold (stashName (size (stash_of st))).
  split.
  - now apply save_keeps_stash_wf.
  - apply insert_subseteq. now apply save_name_is_fresh.
Qed.

Lemma keeps_bind {A B} (m : M A) (k : A -> M B) :
  keeps m -> (forall a, keeps (k a)) -> keeps (bind m k).
Proof.
  intros Hm Hk st o st'. unfold bind.
  destruct (m st) as [[a|e|p] st1] eqn:Hrun; intros Heq Hwf.
  - destruct (Hm _ _ _ Hrun Hwf) as [Hwf1 Hsub1].
    destruct (Hk a _ _ _ Heq Hwf1) as [Hwf2 Hsub2].
    split; [exact Hwf2|]. etrans; eassumption.
  - injection Heq as _ <-. exact (Hm _ _ _ Hrun Hwf).
  - injection Heq as _ <-. exact (Hm _ _ _ Hrun Hwf).
Qed.

Lemma keeps_mapErr {A} (f : error -> error) (m : M A) : keeps m -> keeps (mapErr f m).
Proof.
  intros Hm st o st'. unfold mapErr.
  destruct (m st) as [[a|e|p] st1] eqn:Hrun; intros [= _ <-]; exact (Hm _ _ _ Hrun).
Qed.

Lemma keeps_recovered {A} (m : M A) : keeps m -> keeps (recovered m).
Proof.
  intros Hm st o st'. unfold recovered.
  destruct (m st) as [[a|e|p] st1] eqn:Hrun; intros [= _ <-]; exact (Hm _ _ _ Hrun).
Qed.

Ltac keeps_step :=
  first
    [ apply keeps_ret | apply keeps_errorf | apply keeps_fail | apply keeps_panic
    | apply keeps_liftO | apply keeps_liftH | apply keeps_readH | apply keeps_save
    | apply keeps_append_bytes
    | apply keeps_bind; [|intros ?]
    | apply keeps_mapErr | apply keeps_recovered ].

Ltac keeps_cases :=
  repeat first
    [ keeps_step
    | assumption
    | match goal with
      | |- keeps (match ?x with _ => _ end) => destruct x
      | |- keeps (if ?b then _ else _) => destruct b
      | |- keeps (let '(_, _) := ?p in _) => destruct p
      end ].

Lemma keeps_executeBasicLit k v : keeps (executeBasicLit k v).
Proof. unfold executeBasicLit. keeps_cases. Qed.

Lemma keeps_binary_switch t op Y x y : keeps (binary_switch t op Y x y).
Proof.
  unfold binary_switch.
  destruct (Kind_of x); try solve [keeps_cases].
  destruct x, y; try solve [keeps_cases].
  unfold bytes_binary. destruct op; keeps_cases.
Qed.

Section Rec.
Variable rec : Template -> Expr -> value -> M value.

Lemma keeps_executeParameterExpr t X q data :
  from_option (fun x => forall t data, keeps (rec t x data)) True X ->
  keeps (executeParameterExpr rec t X q data).
Proof.
  intros HX. unfold executeParameterExpr. destruct X as [x|]; cbn in HX; keeps_cases.
  apply HX.
Qed.

Lemma keeps_executeUnaryExpr t op X data :
  (forall t data, keeps (rec t X data)) -> keeps (executeUnaryExpr rec t op X data).
Proof.
  intros HX. unfold executeUnaryExpr. apply keeps_bind; [apply HX|]. intros x.
  destruct op; try solve [keeps_cases].
Qed.

Lemma keeps_executeBinaryExpr t X op Y data :
  (forall t data, keeps (rec t X data)) -> (forall t data, keeps (rec t Y data)) ->
  keeps (executeBinaryExpr rec t X op Y data).
Proof.
  intros HX HY. unfold executeBinaryExpr.
  apply keeps_bind; [apply HX|]. intros x.
  apply keeps_bind; [apply HY|]. intros y.
  destruct (decide (Kind_of x = Kind_of y)); [|keeps_cases].
  apply keeps_bind; [keeps_cases|]. intros [b ok].
  destruct op, ok; try apply keeps_binary_switch; keeps_cases.
Qed.

Lemma keeps_executeConditionalExpr t C X Y data :
  (forall t data, keeps (rec t C data)) ->
  (forall t data, keeps (rec t X data)) -> (forall t data, keeps (rec t Y data)) ->
  keeps (executeConditionalExpr rec t C X Y data).
Proof.
  intros HC HX HY. unfold executeConditionalExpr.
  apply keeps_bind; [apply HC|]. intros c.
  destruct c; try solve [keeps_cases]. destruct b; [apply HX|apply HY].
Qed.

Lemma keeps_executeArgs_loop t fnName fnType data args :
  Forall (fun e => forall t data, keeps (rec t e data)) args ->
  forall i vs, keeps (executeArgs_loop rec t fnName fnType data i vs args).
Proof.
  induction 1 as [|arg rest Harg _ IH]; intros i vs; cbn [executeArgs_loop].
  - keeps_cases.
  - apply keeps_bind; [apply Harg|]. intros a.
    destruct (Convert _ a) as [vv ok].
    destruct (negb (IsValid _)); [keeps_cases|].
    destruct (negb (String.eqb _ _)); [keeps_cases|]. apply IH.
Qed.

Lemma keeps_callResult vs : keeps (callResult vs).
Proof. unfold callResult. keeps_cases. Qed.

Lemma keeps_resolveCallee t F data :
  (forall t data, keeps (rec t F data)) ->
  match F with SelectorExpr X _ => forall t data, keeps (rec t X data) | _ => True end ->
  keeps (resolveCallee rec t F data).
Proof.
  intros HF HX. unfold resolveCallee.
  destruct F; try solve [apply keeps_bind; [apply HF|intros ?; keeps_cases]].
  apply keeps_bind; [apply HX|]. intros x. keeps_cases.
Qed.

Lemma keeps_executeFuncCall t F args data :
  (forall t data, keeps (rec t F data)) ->
  match F with SelectorExpr X _ => forall t data, keeps (rec t X data) | _ => True end ->
  Forall (fun e => forall t data, keeps (rec t e data)) args ->
  keeps (executeFuncCall rec t F args data).
Proof.
  intros HF HX Hargs. unfold executeFuncCall.
  apply keeps_bind; [now apply keeps_resolveCallee|]. intros [[fn fnName] recv].
  destruct (decide (Kind_of fn = KFunc)); [|keeps_cases].
  match goal with |- keeps (match ?x with _ => _ end) => destruct x end; [keeps_cases|].
  apply keeps_bind; [now apply keeps_executeArgs_loop|]. intros vs.
  apply keeps_bind; [keeps_cases|]. intros rs. apply keeps_callResult.
Qed.

Lemma keeps_Execute_with t data :
  (forall t data, keeps (rec t (expr t) data)) -> keeps (Execute_with rec t data).
Proof. intros Hrec. unfold Execute_with. keeps_cases. apply Hrec. Qed.

Lemma keeps_executeLeftArrowExpr t F A data :
  (forall t data, keeps (rec t F data)) ->
  from_option (fun a => forall t data, keeps (rec t a data)) True A ->
  keeps (executeLeftArrowExpr rec t F A data).
Proof.
  intros HF HA. unfold executeLeftArrowExpr.
  apply keeps_bind; [apply HF|]. intros v.
  destruct (implementsFunc v); [|keeps_cases].
  destruct A as [a|]; [|keeps_cases]. cbn in HA.
  apply keeps_bind.
  { unfold executeLeftArrowExprArg, Execute_with. cbn [expr]. keeps_cases. apply HA. }
  intros v'. destruct v'; try solve [keeps_cases].
  apply keeps_bind; [|intros ?; keeps_cases].
  apply keeps_same. intros st o st'. unfold liftH.
  destruct (Func_UnmarshalArg _ _ _). intros [= _ <-]. reflexivity.
Qed.

End Rec.

Lemma keeps_executeDefinedExpr t A data : keeps (executeDefinedExpr t A data).
Proof. unfold executeDefinedExpr. destruct A; keeps_cases. Qed.

Lemma keeps_executeExpr (e : Expr) : forall t data, keeps (executeExpr t e data).
Proof.
  induction e using Expr_induction; intros t data; cbn [executeExpr].
  - apply keeps_executeBasicLit.
  - now apply keeps_executeParameterExpr.
  - apply IHe.
  - now apply keeps_executeUnaryExpr.
  - apply keeps_mapErr. now apply keeps_executeBinaryExpr.
  - now apply keeps_executeConditionalExpr.
  - apply keeps_liftO.
  - apply keeps_liftO.
  - apply keeps_liftO.
  - now apply keeps_executeFuncCall.
  - now apply keeps_executeLeftArrowExpr.
  - apply keeps_executeDefinedExpr.
  - apply keeps_errorf.
Qed.

Lemma keeps_Execute t data : keeps (Execute t data).
Proof. apply keeps_Execute_with. intros t' data'. apply keeps_executeExpr. Qed.

(** The stash keeps its shape through [Execute], and loses no entry. *)
Lemma Execute_keeps_the_stash (t : Template) (data : value) : keeps (Execute t data).
Proof. apply keeps_Execute. Qed.

(** C4: a parameter whose inner expression evaluates to [v] gives [v]
    itself in normal mode.  In re-serialisation mode a function value is
    stored in the stash under [func-N], with [N] the number of functions
    stashed before (starting from a stash with the names [func-0] ..
    [func-(n-1)], the name is new, the earlier entries stay, and the
    stash has that shape again), and the result is the text
    [{{func-N}}], in single quotes for a quoted parameter; any other
    value gives its marshalled text without the final line feed. *)
Theorem parameter_in_both_modes
    (t : Template) (X : Expr) (Quoted : bool) (data : value)
    (st st1 : state) (v : value) :
  executeExpr t X data st = (Ok v, st1) ->
  (executingLeftArrowExprArg t = false ->
   executeParameterExpr executeExpr t (Some X) Quoted data st = (Ok v, st1))
  /\ (executingLeftArrowExprArg t = true -> Kind_of (Elem v) = KFunc ->
      stash_wf (stash_of st) ->
      let s := stash_of st1 in
      let name := stashName (size s) in
      stash_of st ⊆ s
      /\ s !! name = None
      /\ executeParameterExpr executeExpr t (Some X) Quoted data st =
           (Ok (VString (if Quoted then "'{{" +:+ name +:+ "}}'"
                         else "{{" +:+ name +:+ "}}")),
            {| mem := mem st1; argFuncs := Some (<[name := v]> s) |})
      /\ stash_wf (<[name := v]> s)
      /\ size (<[name := v]> s) = S (size s))
  /\ (executingLeftArrowExprArg t = true -> Kind_of (Elem v) <> KFunc ->
      forall (text : string) (h : heap),
        yaml_Marshal v (mem st1) = (Ok text, h) ->
        executeParameterExpr executeExpr t (Some X) Quoted data st =
          (Ok (VString (GoStrings.TrimSuffixLF text)),
           {| mem := h; argFuncs := argFuncs st1 |})
        /\ forall b, text = b +:+ nl -> GoStrings.TrimSuffixLF text = b).
Proof.
  intros HX. unfold executeParameterExpr, bind. rewrite HX.
  split; [|split].
  - intros ->. reflexivity.
  - intros -> Hk Hwf0. cbv zeta.
    destruct (keeps_executeExpr X t data _ _ _ HX Hwf0) as [Hwf Hsub].
    split; [exact Hsub|].
    split; [now apply save_name_is_fresh|].
    split; [|now apply save_keeps_stash_wf].
    destruct (decide (Kind_of (Elem v) = KFunc)) as [_|Hn]; [|contradiction].
    unfold save. fold (stash_of st1). fold (stashName (size (stash_of st1))).
    destruct Quoted; reflexivity.
  - intros -> Hk text h Hm. split.
    + destruct (decide (Kind_of (Elem v) = KFunc)) as [Hy|_]; [contradiction|].
      unfold liftH. rewrite Hm. reflexivity.
    + intros b ->. apply TrimSuffixLF_app_nl.
Qed.

(** C5: [defined] rejects an argument that is not an identifier, a
    selector or an index expression; otherwise it is [true] when the
    lookup succeeds, [false] when the lookup fails with an error that is
    (or wraps) [errNotDefined], and the lookup's error in any other
    case. *)
Theorem defined_reports_the_lookup (t : Template) (Arg : Expr) (data : value) (st : state) :
  (isPath Arg = false ->
   executeExpr t (DefinedExpr Arg) data st
   = (Err (errorString "invalid argument to defined()"), st))
  /\ (isPath Arg = true ->
      (forall v, extract Arg data = Ok v ->
                 executeExpr t (DefinedExpr Arg) data st = (Ok (VBool true), st))
      /\ (forall err, extract Arg data = Err err -> As_errNotDefined err = true ->
                      executeExpr t (DefinedExpr Arg) data st = (Ok (VBool false), st))
      /\ (forall err, extract Arg data = Err err -> As_errNotDefined err = false ->
                      executeExpr t (DefinedExpr Arg) data st = (Err err, st))).
Proof.
  cbn [executeExpr]. unfold executeDefinedExpr. split.
  - destruct Arg; cbn [isPath]; intros Hp; try discriminate; reflexivity.
  - intros Hp. repeat split.
    + intros v Hv. destruct Arg; cbn [isPath] in Hp; try discriminate; now rewrite Hv.
    + intros err He Hnd.
      destruct Arg; cbn [isPath] in Hp; try discriminate; now rewrite He, Hnd.
    + intros err He Hnd.
      destruct Arg; cbn [isPath] in Hp; try discriminate; now rewrite He, Hnd.
Qed.

(** *** The indent rule *)

Lemma Join_cons (l : string) (ls : list string) :
  GoStrings.Join (l :: ls) nl = l +:+ lines_after ls.
Proof.
  revert l. induction ls as [|s rest IH]; intros l.
  - cbn. now rewrite app_nil_r_s.
  - change (GoStrings.Join (l :: s :: rest) nl)
      with (l +:+ nl +:+ GoStrings.Join (s :: rest) nl).
    rewrite IH. reflexivity.
Qed.

Lemma addIndent_loop_after (prefix : string) (i : nat) (ls : list string) :
  addIndent_loop prefix (S i) ls
  = lines_after (map (fun s => if String.eqb s "" then s else prefix +:+ s) ls).
Proof.
  revert i. induction ls as [|s rest IH]; intros i; [reflexivity|].
  cbn [addIndent_loop map lines_after Nat.eqb negb]. rewrite IH.
  destruct (String.eqb_spec s "") as [->|Hne]; cbn [negb].
  - now rewrite !app_nil_r_s.
  - now rewrite !app_assoc_s.
Qed.

Lemma addIndent_loop_lines (prefix : string) (lines : list string) :
  addIndent_loop prefix 0 lines = GoStrings.Join (indented_lines prefix lines) nl.
Proof.
  destruct lines as [|l rest]; [reflexivity|].
  cbn [indented_lines]. rewrite Join_cons.
  cbn [addIndent_loop Nat.eqb negb]. now rewrite addIndent_loop_after.
Qed.

Lemma addIndent_rule (t : Template) (S P : string) :
  addIndent t S P =
    if executingLeftArrowExprArg t && GoStrings.ContainsByte S LF && negb (String.eqb P "")
    then GoStrings.Join (indented_lines (indent_of P) (GoStrings.Split S LF)) nl
    else S.
Proof.
  unfold addIndent, indent_of. destruct (executingLeftArrowExprArg t); [|reflexivity].
  cbn [andb].
  destruct (GoStrings.ContainsByte S LF && negb (String.eqb P "")); [|reflexivity].
  apply addIndent_loop_lines.
Qed.

Lemma underlying_of_string x :
  Kind_of x = KString -> exists s, underlying x = VString s.
Proof.
  induction x; cbn [Kind_of underlying]; intros Hk; try discriminate; eauto.
Qed.

(** C6, as the code has it: the concatenation [P + S] of two strings is
    [P] followed by [S]; in re-serialisation mode, when the right operand
    is a parameter, [S] contains a line feed and [P] is not empty, every
    line of [S] after the first that is not empty is put behind a run of
    spaces, as many as the final line of [P] has runes, and the empty
    lines stay empty. *)
Theorem concat_indents_nonempty_lines
    (t : Template) (X Y : Expr) (data : value) (st st1 st2 : state) (x y : value) :
  executeExpr t X data st = (Ok x, st1) ->
  executeExpr t Y data st1 = (Ok y, st2) ->
  Kind_of x = KString -> Kind_of y = KString ->
  exists P S : string,
    Convert_string x = Some P /\ Convert_string y = Some S
    /\ executeBinaryExpr executeExpr t X ADD Y data st =
         (Ok (VString
                (P +:+ (if executingLeftArrowExprArg t && isParameterExpr Y
                           && GoStrings.ContainsByte S LF && negb (String.eqb P "")
                        then GoStrings.Join
                               (indented_lines (indent_of P) (GoStrings.Split S LF)) nl
                        else S))),
          st2).
Proof.
  intros HX HY Hkx Hky.
  destruct (underlying_of_string x Hkx) as [P HP].
  destruct (underlying_of_string y Hky) as [S HS].
  exists P, S. unfold Convert_string. rewrite HP, HS. repeat split.
  erewrite executeBinaryExpr_operands; [|exact HX|exact HY|congruence|discriminate..].
  unfold binary_switch, Convert_string. rewrite Hkx, HP, HS.
  destruct (executingLeftArrowExprArg t) eqn:Hflag; cbn [andb]; [|reflexivity].
  destruct (isParameterExpr Y); cbn [andb]; [|reflexivity].
  rewrite addIndent_rule, Hflag. reflexivity.
Qed.

(** A negated literal that [strconv.ParseInt] rejects: the evaluation
    stops at the literal, with its error. *)
Lemma negated_bad_literal (lit : string) (e : Strconv.NumErr) (t : Template)
    (data : value) (st : state) :
  Strconv.ParseInt0 lit = inl e ->
  executeExpr t (UnaryExpr SUB (BasicLit INT lit)) data st =
    (Err (wrapError
            ("invalid AST: " +:+ dq +:+ lit +:+ dq +:+ " is not an integer")
            (errorString
               ("strconv.ParseInt: parsing " +:+ Quote lit +:+ ": "
                +:+ Strconv.NumErr_msg e))),
     st).
Proof.
  intros Hparse. cbn [executeExpr]. unfold executeUnaryExpr, bind.
  cbn [executeExpr]. unfold executeBasicLit. rewrite Hparse. reflexivity.
Qed.

Lemma Execute_negated_bad_literal (lit : string) (e : Strconv.NumErr) (t : Template)
    (data : value) (st : state) :
  expr t = ParameterExpr (Some (UnaryExpr SUB (BasicLit INT lit))) false ->
  Strconv.ParseInt0 lit = inl e ->
  Execute t data st =
    (Err (wrapExecute t
            (wrapError
               ("invalid AST: " +:+ dq +:+ lit +:+ dq +:+ " is not an integer")
               (errorString
                  ("strconv.ParseInt: parsing " +:+ Quote lit +:+ ": "
                   +:+ Strconv.NumErr_msg e)))),
     st).
Proof.
  intros Hexpr Hparse. unfold Execute, Execute_with, recovered, mapErr. rewrite Hexpr.
  change (executeExpr t (ParameterExpr ?X ?q) data st)
    with (executeParameterExpr executeExpr t X q data st).
  unfold executeParameterExpr, bind.
  rewrite (negated_bad_literal _ _ t data st Hparse). reflexivity.
Qed.

(** C7, as the code has it: the literal [9223372036854775808] is out of
    the range of [strconv.ParseInt], so evaluating
    [{{-9223372036854775808}}] fails at the literal, in either mode and
    on any data, with the error of the literal; the negation is not
    reached, and the result is never the least 64-bit integer. *)
Theorem min_int_literal_is_out_of_range
    (source : string) (mode : bool) (data : value) (st : state) :
  let t := {| str := source; expr := minInt64Literal; executingLeftArrowExprArg := mode |} in
  Strconv.ParseInt0 "9223372036854775808" = inl Strconv.ErrRange
  /\ Execute t data st =
       (Err (wrapExecute t
               (wrapError
                  ("invalid AST: " +:+ dq +:+ "9223372036854775808" +:+ dq
                   +:+ " is not an integer")
                  (errorString
                     ("strconv.ParseInt: parsing " +:+ Quote "9223372036854775808"
                      +:+ ": value out of range")))),
        st)
  /\ fst (Execute t data st) <> Ok (VInt Int64 MinInt64).
Proof.
  intros t.
  assert (Hparse : Strconv.ParseInt0 "9223372036854775808" = inl Strconv.ErrRange)
    by (vm_compute; reflexivity).
  pose proof (Execute_negated_bad_literal _ _ t data st eq_refl Hparse) as Hexec.
  split; [exact Hparse|]. split; [exact Hexec|].
  rewrite Hexec. discriminate.
Qed.

(** C8: when the capacity of the left operand fits the result, [+] on
    byte slices stores the bytes of the right operand behind the left
    one, in the backing array the data tree holds. *)
Lemma bytes_append_in_place (t : Template) (X Y : Expr) (data : value)
    (st st1 st2 : state) (xb yb : slice) :
  executeExpr t X data st = (Ok (VBytes xb), st1) ->
  executeExpr t Y data st1 = (Ok (VBytes yb), st2) ->
  (len xb + len yb <= cap xb)%nat ->
  executeBinaryExpr executeExpr t X ADD Y data st =
    (Ok (VBytes {| arr := arr xb; off := off xb; len := len xb + len yb; cap := cap xb |}),
     {| mem := write_at (mem st2) (arr xb) (off xb + len xb) (bytes_at (mem st2) yb);
        argFuncs := argFuncs st2 |}).
Proof.
  intros HX HY Hcap.
  erewrite executeBinaryExpr_operands; [|exact HX|exact HY|reflexivity|discriminate..].
  unfold binary_switch. cbn [Kind_of bytes_binary]. unfold bind, append_bytes.
  destruct (Nat.leb_spec (len xb + len yb) (cap xb)) as [_|Hgt]; [reflexivity|lia].
Qed.

End WithHost.

(** *** The theorems at concrete inputs, on the small host *)

#[local] Existing Instance demoHost.

Lemma parameter_in_both_modes_witness :
  executeParameterExpr executeExpr (reserialising (Ident "f"))
    (Some (Ident "f")) true demoData emptyState
  = (Ok (VString "'{{func-0}}'"),
     {| mem := []; argFuncs := Some (<["func-0" := VFunc "helper"]> ∅) |}).
Proof.
  destruct (parameter_in_both_modes (H := demoHost) (reserialising (Ident "f"))
              (Ident "f") true demoData emptyState emptyState (VFunc "helper") eq_refl)
    as (_ & Hfunc & _).
  destruct (Hfunc eq_refl eq_refl stash_wf_empty) as (_ & _ & Hexec & _).
  exact Hexec.
Defined.

Lemma defined_reports_the_lookup_witness :
  executeExpr (H := demoHost) (template (DefinedExpr (Ident "missing")))
    (DefinedExpr (Ident "missing")) demoData emptyState
  = (Ok (VBool false), emptyState)
  /\ executeExpr (H := demoHost) (template (DefinedExpr (BasicLit INT "1")))
       (DefinedExpr (BasicLit INT "1")) demoData emptyState
     = (Err (errorString "invalid argument to defined()"), emptyState).
Proof.
  split.
  - destruct (defined_reports_the_lookup (H := demoHost)
                (template (DefinedExpr (Ident "missing"))) (Ident "missing")
                demoData emptyState) as (_ & Hpath).
    destruct (Hpath eq_refl) as (_ & Hfalse & _).
    exact (Hfalse (errNotDefined ".missing not found") eq_refl eq_refl).
  - destruct (defined_reports_the_lookup (H := demoHost)
                (template (DefinedExpr (BasicLit INT "1"))) (BasicLit INT "1")
                demoData emptyState) as (Hbad & _).
    exact (Hbad eq_refl).
Defined.

Lemma concat_indents_nonempty_lines_witness :
  executeBinaryExpr executeExpr (reserialising (BadExpr ""))
    (Ident "p") ADD (ParameterExpr (Some (Ident "s")) false) indentData emptyState
  = (Ok (VString ("- a" +:+ nl +:+ nl +:+ "  b")), emptyState).
Proof.
  destruct (concat_indents_nonempty_lines (H := demoHost) (reserialising (BadExpr ""))
              (Ident "p") (ParameterExpr (Some (Ident "s")) false) indentData
              emptyState emptyState emptyState
              (VString "- ") (VString ("a" +:+ nl +:+ nl +:+ "b"))
              eq_refl eq_refl eq_refl eq_refl) as (P & S & HP & HS & Hexec).
  injection HP as <-. injection HS as <-. rewrite Hexec. vm_compute. reflexivity.
Defined.

(** C6, as the claim has it, fails: with the prefix [- ] and the text
    [a], empty line, [b], the code gives [- a], an empty line and [  b],
    not the text with every line after the first behind two spaces. *)
Lemma indent_leaves_empty_lines_empty :
  let S := "a" +:+ nl +:+ nl +:+ "b" in
  executeBinaryExpr executeExpr (reserialising (BadExpr ""))
    (Ident "p") ADD (ParameterExpr (Some (Ident "s")) false) indentData emptyState
  <> (Ok (VString
            ("- " +:+ GoStrings.Join
                        (indented_lines_all (indent_of "- ") (GoStrings.Split S LF)) nl)),
      emptyState).
Proof. vm_compute. intros Heq. discriminate Heq. Qed.

(** C7, as the claim has it, fails: the literal does not evaluate to a
    value that a negation could then reject, and the error of [Execute]
    is not an overflow error of the negation. *)
Lemma min_int_literal_does_not_parse :
  executeBasicLit INT "9223372036854775808" emptyState
  = (Err (wrapError
            ("invalid AST: " +:+ dq +:+ "9223372036854775808" +:+ dq
             +:+ " is not an integer")
            (errorString
               ("strconv.ParseInt: parsing " +:+ dq +:+ "9223372036854775808" +:+ dq
                +:+ ": value out of range"))),
     emptyState)
  /\ (forall v st, executeBasicLit INT "9223372036854775808" emptyState <> (Ok v, st))
  /\ (forall (k : ikind) (n : Z),
        fst (Execute (template minInt64Literal) VNil emptyState)
        <> Err (wrapExecute (template minInt64Literal)
                  (errorString ("-(" +:+ pretty n +:+ ") overflows " +:+ ikind_name k)))).
Proof.
  split; [reflexivity|]. split.
  - intros v st Heq. discriminate Heq.
  - intros k n Heq. vm_compute in Heq. discriminate Heq.
Qed.

(** C8 fails on the code: with [p] and [q] over one backing array,
    [{{p + p}}] stores the byte of [p] behind [p] in that array, and the
    bytes of [q] change from [ab] to [aa]. *)
Theorem bytes_append_writes_into_the_data :
  let t := template (ParameterExpr (Some (BinaryExpr (Ident "p") ADD (Ident "p"))) false) in
  bytes_at (mem sharedState) sharedQ = ["a"%char; "b"%char]
  /\ fst (Execute t sharedData sharedState) = Ok (VBytes sharedQ)
  /\ bytes_at (mem (snd (Execute t sharedData sharedState))) sharedQ
     = ["a"%char; "a"%char].
Proof. vm_compute. repeat split. Qed.

(** C1, as worded, fails on a pair of signed operands of different
    kinds: with [a] the [int] 1, [{{a + 2}}] has operands of signed
    integer kinds whose conversions are 1 and 2, the sum 3 is within range,
    and [Execute] returns an error, not 3. *)
Lemma mixed_signed_kinds_are_not_added :
  executeExpr (H := demoHost) (template (BadExpr "")) (Ident "a") mixedData emptyState
  = (Ok (VInt Int 1), emptyState)
  /\ executeExpr (H := demoHost) (template (BadExpr "")) (BasicLit INT "2") mixedData emptyState
     = (Ok (VInt Int64 2), emptyState)
  /\ Convert_int64 (VInt Int 1) = Some 1%Z
  /\ Convert_int64 (VInt Int64 2) = Some 2%Z
  /\ fits (1 + 2)
  /\ Execute (H := demoHost) (template (BinaryExpr (Ident "a") ADD (BasicLit INT "2")))
       mixedData emptyState
     = (Err (wrapError "failed to execute: "
               (wrapError "invalid operation"
                  (errorString "1 + 2: mismatched types int and int64"))),
        emptyState).
Proof. vm_compute. repeat split; discriminate. Qed.

Lemma signed_arithmetic_is_checked_witness :
  Execute (H := demoHost) (template (BinaryExpr (Ident "max") ADD (Ident "one")))
    demoData emptyState
  = (Err (wrapError "failed to execute: "
            (wrapError "invalid operation"
               (errorString "9223372036854775807 + 1 overflows int"))),
     emptyState).
Proof.
  destruct (signed_arithmetic_is_checked (H := demoHost)
              (template (BinaryExpr (Ident "max") ADD (Ident "one")))
              (Ident "max") ADD (Ident "one") demoData
              emptyState emptyState emptyState
              (VInt Int64 MaxInt64) (VInt Int64 1) Int64 Int64
              eq_refl eq_refl eq_refl eq_refl eq_refl)
    as [_ Hsame].
  destruct (Hsame eq_refl) as (a & b & Ha & Hb & _ & _ & Hadd & _).
  vm_compute in Ha, Hb. injection Ha as <-. injection Hb as <-.
  rewrite (Hadd eq_refl). vm_compute. reflexivity.
Defined.

Lemma binary_operands_are_both_evaluated_witness :
  Execute (H := demoHost) (template (BinaryExpr (Ident "yes") LAND (Ident "missing")))
    demoData emptyState
  = (Err (wrapError "failed to execute: "
            (wrapError "invalid operation" (errNotDefined ".missing not found"))),
     emptyState).
Proof.
  destruct (binary_operands_are_both_evaluated (H := demoHost)
              (template (BinaryExpr (Ident "yes") LAND (Ident "missing")))
              (Ident "yes") LAND (Ident "missing") demoData
              emptyState emptyState (VBool true) eq_refl) as [Herr _].
  destruct (Herr (errNotDefined ".missing not found") emptyState eq_refl) as [_ Hexec].
  exact (Hexec eq_refl).
Defined.

Lemma Execute_recovers_panics_witness :
  exists err,
    Execute (H := demoHost) (template (BinaryExpr (Ident "u") MUL (Ident "zero")))
      demoData emptyState = (Err err, emptyState)
    /\ Error err = "failed to execute: panic: runtime error: integer divide by zero".
Proof.
  destruct (Execute_recovers_panics (H := demoHost)
              (template (BinaryExpr (Ident "u") MUL (Ident "zero"))) demoData emptyState)
    as [_ Hrec].
  exact (Hrec "runtime error: integer divide by zero" emptyState eq_refl).
Defined.

End TemplateProps.

(** ** Further properties of the test summary *)

Module ReporterMoreProps.
Import Reporter ReporterCounts.

Section WithEnv.
Context {E : Env}.

Lemma fold_append_lists (calls : list (string * string)) (s : testSummary) :
  TestResultPassed_String <> TestResultFailed_String ->
  TestResultPassed_String <> TestResultSkipped_String ->
  TestResultFailed_String <> TestResultSkipped_String ->
  let s' := fold_left (fun s c => append s (fst c) (snd c)) calls s in
  passed s' = (passed s ++ paths_with TestResultPassed_String calls)%list
  /\ failed s' = (failed s ++ paths_with TestResultFailed_String calls)%list
  /\ skipped s' = (skipped s ++ paths_with TestResultSkipped_String calls)%list.
Proof.
  intros Hpf Hps Hfs. revert s. induction calls as [|[path result] rest IH]; intros s.
  - cbn. now rewrite !app_nil_r.
  - cbn [fold_left fst snd]. specialize (IH (append s path result)).
    cbv zeta in IH. destruct IH as (Hp & Hf & Hs). cbv zeta.
    rewrite Hp, Hf, Hs. unfold paths_with, append. cbn [List.filter snd].
    destruct (String.eqb_spec result TestResultPassed_String) as [->|Hn1].
    + destruct (String.eqb_spec TestResultPassed_String TestResultFailed_String); [contradiction|].
      destruct (String.eqb_spec TestResultPassed_String TestResultSkipped_String); [contradiction|].
      cbn [passed failed skipped map fst]. now rewrite <- app_assoc.
    + destruct (String.eqb_spec result TestResultFailed_String) as [->|Hn2].
      * destruct (String.eqb_spec TestResultFailed_String TestResultSkipped_String); [contradiction|].
        cbn [passed failed skipped map fst]. now rewrite <- app_assoc.
      * destruct (String.eqb_spec result TestResultSkipped_String) as [->|Hn3].
        -- cbn [passed failed skipped map fst]. now rewrite <- app_assoc.
        -- auto.
Qed.

Lemma count_known (calls : list (string * string)) :
  TestResultPassed_String <> TestResultFailed_String ->
  TestResultPassed_String <> TestResultSkipped_String ->
  TestResultFailed_String <> TestResultSkipped_String ->
  (length (paths_with TestResultPassed_String calls)
   + length (paths_with TestResultFailed_String calls)
   + length (paths_with TestResultSkipped_String calls)
   = length (List.filter (fun c => known (snd c)) calls))%nat.
Proof.
  intros Hpf Hps Hfs. unfold paths_with, known. rewrite !length_map.
  induction calls as [|[path result] rest IH]; [reflexivity|].
  cbn [List.filter snd].
  destruct (String.eqb_spec result TestResultPassed_String) as [->|Hn1].
  - destruct (String.eqb_spec TestResultPassed_String TestResultFailed_String); [contradiction|].
    destruct (String.eqb_spec TestResultPassed_String TestResultSkipped_String); [contradiction|].
    cbn [orb length]. lia.
  - destruct (String.eqb_spec result TestResultFailed_String) as [->|Hn2].
    + destruct (String.eqb_spec TestResultFailed_String TestResultSkipped_String); [contradiction|].
      cbn [orb length]. lia.
    + destruct (String.eqb_spec result TestResultSkipped_String) as [->|Hn3];
        cbn [orb length]; lia.
Qed.

(** X22: After any sequence of [append] calls, each list of the summary
    holds the paths reported with its result, in call order; a result
    string other than the three known ones is dropped, so the three counts
    add up to the number of calls with a known result. *)
Theorem appendAll_files_by_result (calls : list (string * string)) :
  TestResultPassed_String <> TestResultFailed_String ->
  TestResultPassed_String <> TestResultSkipped_String ->
  TestResultFailed_String <> TestResultSkipped_String ->
  let s := appendAll calls in
  passed s = paths_with TestResultPassed_String calls
  /\ failed s = paths_with TestResultFailed_String calls
  /\ skipped s = paths_with TestResultSkipped_String calls
  /\ (length (passed s) + length (failed s) + length (skipped s)
      = length (List.filter (fun c => known (snd c)) calls))%nat
  /\ (length (passed s) + length (failed s) + length (skipped s) <= length calls)%nat.
Proof.
  intros Hpf Hps Hfs s.
  destruct (fold_append_lists calls newTestSummary Hpf Hps Hfs) as (Hp & Hf & Hs).
  cbn [newTestSummary passed failed skipped app] in Hp, Hf, Hs.
  fold (appendAll calls) in Hp, Hf, Hs. fold s in Hp, Hf, Hs.
  split; [exact Hp|]. split; [exact Hf|]. split; [exact Hs|].
  rewrite Hp, Hf, Hs, (count_known calls Hpf Hps Hfs).
  split; [reflexivity|]. apply filter_length_le.
Qed.

End WithEnv.

Lemma appendAll_files_by_result_witness :
  passed (appendAll (E := plainEnv)
            [("a.yaml", "passed"); ("b.yaml", "failed"); ("c.yaml", "passed");
             ("d.yaml", "other")])
  = ["a.yaml"; "c.yaml"].
Proof.
  destruct (appendAll_files_by_result (E := plainEnv)
              [("a.yaml", "passed"); ("b.yaml", "failed"); ("c.yaml", "passed");
               ("d.yaml", "other")]) as (Hp & _); try discriminate.
  rewrite Hp. reflexivity.
Defined.

End ReporterMoreProps.

(** ** Further properties of the status assertions *)

Module GrpcMoreProps.
Import Grpc GrpcStatus.

(** X23: [assertStatusMessage] succeeds exactly when no message is
    expected or the status message equals the expected one; a nil status
    has the empty message and fails every expectation. *)
Theorem assertStatusMessage_succeeds_iff (e : Expect) (sts : option Status) :
  (assertStatusMessage e sts = None <->
     es_Message (e_Status e) = "" \/ Message sts = es_Message (e_Status e))
  /\ (es_Message (e_Status e) <> "" -> assertStatusMessage e None <> None).
Proof.
  unfold assertStatusMessage. split.
  - destruct (String.eqb_spec (es_Message (e_Status e)) ""); [tauto|].
    destruct (String.eqb_spec (Message sts) (es_Message (e_Status e))); [tauto|].
    split; [discriminate|]. intros [?|?]; contradiction.
  - intros Hne. destruct (String.eqb_spec (es_Message (e_Status e)) ""); [contradiction|].
    cbn [Message]. destruct (String.eqb_spec "" (es_Message (e_Status e))); [congruence|].
    discriminate.
Qed.

Section Details.
Variable D : Type.
Variable Assert : D -> detail -> option string.

Lemma assertStatusDetails_loop_ok (expected : list (list (string * D)))
    (actual : list detail) (i : nat) :
  assertStatusDetails_loop D Assert i expected actual = None <->
  forall j m, expected !! j = Some m ->
    exists a, actual !! (i + j)%nat = Some a /\ detail_matches D Assert m a.
Proof.
  revert i. induction expected as [|m rest IH]; intros i; cbn [assertStatusDetails_loop].
  - split; [|reflexivity]. intros _ j m Hj. discriminate.
  - split.
    + intros Hok.
      destruct (actual !! i) as [a|] eqn:Ha; [|discriminate].
      destruct m as [|[name d] [|? ?]]; try discriminate.
      destruct a as [aname text| |]; try discriminate.
      destruct (String.eqb_spec aname name) as [->|]; cbn [negb] in Hok; [|discriminate].
      destruct (Assert d (DProto name text)) eqn:HA; [discriminate|].
      intros [|j] m' Hj.
      * injection Hj as <-. rewrite Nat.add_0_r. exists (DProto name text).
        split; [exact Ha|]. exists name, d, text. auto.
      * cbn in Hj. destruct (proj1 (IH (S i)) Hok j m' Hj) as (a & Haj & Hm).
        exists a. split; [|exact Hm]. rewrite <- Haj. f_equal. lia.
    + intros Hall.
      destruct (Hall 0%nat m eq_refl) as (a & Ha & name & d & text & -> & -> & HA).
      rewrite Nat.add_0_r in Ha. rewrite Ha, String.eqb_refl. cbn [negb]. rewrite HA.
      apply IH. intros j m' Hj. destruct (Hall (S j) m' Hj) as (a & Haj & Hm).
      exists a. split; [|exact Hm]. rewrite <- Haj. f_equal. lia.
Qed.

(** X24: [assertStatusDetails] succeeds exactly when every expected detail
    is a map with one entry and the actual detail at the same index is a
    proto message of that name that the assertion accepts; so the status
    has at least as many details as are expected. *)
Theorem assertStatusDetails_succeeds_iff (expected : list (list (string * D)))
    (sts : option Status) :
  (assertStatusDetails D Assert expected sts = None <->
     forall j m, expected !! j = Some m ->
       exists a, Details sts !! j = Some a /\ detail_matches D Assert m a)
  /\ (assertStatusDetails D Assert expected sts = None ->
      (length expected <= length (Details sts))%nat).
Proof.
  assert (Hiff : assertStatusDetails D Assert expected sts = None <->
            forall j m, expected !! j = Some m ->
              exists a, Details sts !! j = Some a /\ detail_matches D Assert m a).
  { unfold assertStatusDetails. destruct expected as [|m rest] eqn:He.
    - cbn. split; [|reflexivity]. intros _ j m Hj. discriminate.
    - cbn [length Nat.eqb]. rewrite assertStatusDetails_loop_ok. reflexivity. }
  split; [exact Hiff|].
  intros Hok. destruct (Nat.le_gt_cases (length expected) (length (Details sts))) as [|Hlt];
    [assumption|].
  destruct (lookup_lt_is_Some_2 expected (length (Details sts)) Hlt) as [m Hm].
  destruct (proj1 Hiff Hok _ _ Hm) as (a & Ha & _).
  apply lookup_lt_Some in Ha. lia.
Qed.

End Details.

Lemma code_table : forallb (fun c => forallb (code_row c) codes) codes = true.
Proof. vm_compute. reflexivity. Qed.

Lemma in_codes (c : Z) : (0 <= c <= 16)%Z -> In c codes.
Proof.
  intros Hc. unfold codes. apply in_map_iff. exists (Z.to_nat c). split; [lia|].
  apply in_seq. lia.
Qed.

(** X25: When the expected code is the name or the decimal number of one
    of the codes 0 to 16, [assertStatusCode] succeeds exactly on a status
    with that code. *)
Theorem code_is_matched_by_name_or_number (e : Expect) (s : Status) (c' : Z) :
  (0 <= st_code s <= 16)%Z -> (0 <= c' <= 16)%Z ->
  expectedCode e = Code_String c' \/ expectedCode e = Itoa c' ->
  (assertStatusCode e (Some s) = None <-> st_code s = c').
Proof.
  intros Hc Hc' Hexp.
  pose proof code_table as Htab. rewrite forallb_forall in Htab.
  specialize (Htab _ (in_codes _ Hc)). rewrite forallb_forall in Htab.
  specialize (Htab _ (in_codes _ Hc')). unfold code_row in Htab.
  apply andb_prop in Htab as [Htab H4]. apply andb_prop in Htab as [Htab H3].
  apply andb_prop in Htab as [H1 H2].
  apply Bool.eqb_prop in H1, H3. apply negb_true_iff in H2, H4.
  unfold assertStatusCode. cbn [Code].
  destruct Hexp as [-> | ->].
  - rewrite H1, H4. destruct (Z.eqb_spec (st_code s) c') as [Heq|Hne].
    + split; auto.
    + split; [discriminate|contradiction].
  - rewrite H2, H3. destruct (Z.eqb_spec (st_code s) c') as [Heq|Hne].
    + split; auto.
    + split; [discriminate|contradiction].
Qed.

Lemma code_is_matched_by_name_or_number_witness :
  assertStatusCode expectFive notFound = None.
Proof.
  apply (code_is_matched_by_name_or_number expectFive
           {| st_code := 5; st_message := "no such user"; st_details := [] |} 5).
  - cbn. lia.
  - lia.
  - right. reflexivity.
  - reflexivity.
Defined.

Lemma assertStatusMessage_succeeds_iff_witness :
  assertStatusMessage expectMessage twoDetails = None.
Proof.
  destruct (assertStatusMessage_succeeds_iff expectMessage twoDetails) as [Hiff _].
  apply Hiff. right. reflexivity.
Defined.

Lemma assertStatusDetails_succeeds_iff_witness :
  (length [[("google.rpc.ErrorInfo", tt)]; [("google.rpc.Help", tt)]]
   <= length (Details twoDetails))%nat.
Proof.
  destruct (assertStatusDetails_succeeds_iff unit acceptAll
              [[("google.rpc.ErrorInfo", tt)]; [("google.rpc.Help", tt)]] twoDetails)
    as [_ Hlen].
  apply Hlen. reflexivity.
Defined.

End GrpcMoreProps.

(** ** Further properties of the template evaluator *)

Module TemplateMoreProps.
Import Template StringFacts TemplateProps TemplateAux.

Section WithHost.
Context {H : Host}.

Lemma underlying_of_uint x k :
  Kind_of x = KUint k -> exists n, underlying x = VUint k n.
Proof.
  induction x; cbn [Kind_of underlying]; intros Hk; try discriminate; eauto.
  injection Hk as ->. eauto.
Qed.

Lemma uint_val_bounds k n : (0 <= uint_val k n <= MaxUint64)%Z.
Proof.
  unfold uint_val, wrap_unsigned, MaxUint64.
  pose proof (Z.mod_pos_bound n (2 ^ ubits k)) as Hm.
  destruct k; cbn [ubits] in *; lia.
Qed.

Lemma uint64_small n : (0 <= n <= MaxUint64)%Z -> uint64 n = n.
Proof. unfold uint64, wrap_unsigned, MaxUint64. intros Hn. apply Z.mod_small. lia. Qed.

Lemma binary_switch_uint t op Y x y k a b st :
  Kind_of x = KUint k -> Convert_uint64 x = Some a -> Convert_uint64 y = Some b ->
  forall o, uint_binary op a b = Some o ->
  binary_switch t op Y x y st = (o, st).
Proof.
  intros Hk Ha Hb o Ho. unfold binary_switch. rewrite Hk, Ha, Hb, Ho. reflexivity.
Qed.

Lemma Execute_after_operands t X op Y data st st1 st2 x y o :
  expr t = BinaryExpr X op Y ->
  executeExpr t X data st = (Ok x, st1) ->
  executeExpr t Y data st1 = (Ok y, st2) ->
  Kind_of x = Kind_of y -> op <> EQL -> op <> NEQ ->
  binary_switch t op Y x y st2 = (o, st2) ->
  Execute t data st =
    (match o with
     | Ok v => Ok v
     | Err e => Err (wrapExecute t (wrapError "invalid operation" e))
     | Panic p => Err (errorString ("failed to execute: panic: " +:+ p))
     end, st2).
Proof.
  intros He HX HY Hk Hn1 Hn2 Hsw.
  eapply Execute_binary; [exact He|].
  erewrite executeBinaryExpr_operands; eauto.
Qed.

Lemma Execute_uint_binary t X op Y data st st1 st2 x y k a b o :
  expr t = BinaryExpr X op Y ->
  executeExpr t X data st = (Ok x, st1) ->
  executeExpr t Y data st1 = (Ok y, st2) ->
  Kind_of x = KUint k -> Kind_of y = KUint k ->
  Convert_uint64 x = Some a -> Convert_uint64 y = Some b ->
  uint_binary op a b = Some o ->
  Execute t data st =
    (match o with
     | Ok v => Ok v
     | Err e => Err (wrapExecute t (wrapError "invalid operation" e))
     | Panic p => Err (errorString ("failed to execute: panic: " +:+ p))
     end, st2).
Proof.
  intros He HX HY Hkx Hky Ha Hb Ho.
  assert (Hop : op <> EQL /\ op <> NEQ) by (split; intros ->; discriminate Ho).
  eapply Execute_after_operands; try eassumption; try tauto; [congruence|].
  eapply binary_switch_uint; eassumption.
Qed.

(** X1: For operands of one unsigned integer kind, with [a] and [b] their
    [uint64] conversions, [Execute] gives the exact sum, difference or
    product when it is within [0, 2^64 - 1] and the error
    [a op b overflows uint] otherwise; the multiplication test divides by
    [b] first, so a product with [b = 0] ends in the recovered
    division panic. *)
Theorem unsigned_arithmetic_is_checked
    (t : Template) (X : Expr) (op : Token) (Y : Expr) (data : value)
    (st st1 st2 : state) (x y : value) (k : ukind) :
  expr t = BinaryExpr X op Y ->
  executeExpr t X data st = (Ok x, st1) ->
  executeExpr t Y data st1 = (Ok y, st2) ->
  Kind_of x = KUint k -> Kind_of y = KUint k ->
  exists a b : Z,
    Convert_uint64 x = Some a /\ Convert_uint64 y = Some b
    /\ (0 <= a <= MaxUint64)%Z /\ (0 <= b <= MaxUint64)%Z
    /\ (op = ADD ->
        Execute t data st =
          (if (a + b <=? MaxUint64)%Z then Ok (VUint Uint64 (a + b))
           else Err (wrapExecute t (wrapError "invalid operation"
                       (errorString (pretty a +:+ " + " +:+ pretty b +:+ " overflows uint")))),
           st2))
    /\ (op = SUB ->
        Execute t data st =
          (if (b <=? a)%Z then Ok (VUint Uint64 (a - b))
           else Err (wrapExecute t (wrapError "invalid operation"
                       (errorString (pretty a +:+ " - " +:+ pretty b +:+ " overflows uint")))),
           st2))
    /\ (op = MUL -> b <> 0%Z ->
        Execute t data st =
          (if (a * b <=? MaxUint64)%Z then Ok (VUint Uint64 (a * b))
           else Err (wrapExecute t (wrapError "invalid operation"
                       (errorString (pretty a +:+ " * " +:+ pretty b +:+ " overflows uint")))),
           st2))
    /\ (op = MUL -> b = 0%Z ->
        Execute t data st =
          (Err (errorString "failed to execute: panic: runtime error: integer divide by zero"),
           st2)).
Proof.
  intros He HX HY Hkx Hky.
  destruct (underlying_of_uint x k Hkx) as [n Hn].
  destruct (underlying_of_uint y k Hky) as [m Hm].
  exists (uint_val k n), (uint_val k m).
  assert (Ha : Convert_uint64 x = Some (uint_val k n)) by (unfold Convert_uint64; now rewrite Hn).
  assert (Hb : Convert_uint64 y = Some (uint_val k m)) by (unfold Convert_uint64; now rewrite Hm).
  pose proof (uint_val_bounds k n) as Hra. pose proof (uint_val_bounds k m) as Hrb.
  set (a := uint_val k n) in *. set (b := uint_val k m) in *.
  split; [exact Ha|]. split; [exact Hb|]. split; [exact Hra|]. split; [exact Hrb|].
  split; [|split; [|split]].
  - intros ->.
    rewrite (Execute_uint_binary _ _ _ _ _ _ _ _ _ _ _ _ _ _ He HX HY Hkx Hky Ha Hb eq_refl).
    rewrite Z.gtb_ltb.
    destruct (Z.ltb_spec 0 b) as [Hb0|Hb0]; cbn [andb].
    + rewrite (uint64_small (MaxUint64 - b)) by (unfold MaxUint64 in *; lia).
      rewrite Z.gtb_ltb.
      destruct (Z.ltb_spec (MaxUint64 - b) a), (Z.leb_spec (a + b) MaxUint64); try lia;
        try reflexivity.
      rewrite uint64_small by lia. reflexivity.
    + assert (b = 0%Z) as Hz by lia. rewrite Hz, Z.add_0_r.
      destruct (Z.leb_spec a MaxUint64); [|lia]. rewrite uint64_small by lia. reflexivity.
  - intros ->.
    rewrite (Execute_uint_binary _ _ _ _ _ _ _ _ _ _ _ _ _ _ He HX HY Hkx Hky Ha Hb eq_refl).
    destruct (Z.ltb_spec a b), (Z.leb_spec b a); try lia; try reflexivity.
    rewrite uint64_small by (unfold MaxUint64 in *; lia). reflexivity.
  - intros -> Hb0.
    rewrite (Execute_uint_binary _ _ _ _ _ _ _ _ _ _ _ _ _ _ He HX HY Hkx Hky Ha Hb eq_refl).
    destruct (Z.eqb_spec b 0) as [|_]; [contradiction|].
    rewrite Z.gtb_ltb.
    pose proof (Z.div_mod MaxUint64 b Hb0) as Hdm.
    pose proof (Z.mod_pos_bound MaxUint64 b ltac:(lia)) as Hmb.
    destruct (Z.ltb_spec (MaxUint64 / b) a), (Z.leb_spec (a * b) MaxUint64);
      try reflexivity; try nia.
    rewrite uint64_small by nia. reflexivity.
  - intros -> Hb0.
    rewrite (Execute_uint_binary _ _ _ _ _ _ _ _ _ _ _ _ _ _ He HX HY Hkx Hky Ha Hb eq_refl).
    destruct (Z.eqb_spec b 0) as [_|Hne]; [reflexivity|contradiction].
Qed.

Lemma Execute_int_binary t X op Y data st st1 st2 x y k a b o :
  expr t = BinaryExpr X op Y ->
  executeExpr t X data st = (Ok x, st1) ->
  executeExpr t Y data st1 = (Ok y, st2) ->
  Kind_of x = KInt k -> Kind_of y = KInt k ->
  Convert_int64 x = Some a -> Convert_int64 y = Some b ->
  int_binary op a b = Some o ->
  Execute t data st =
    (match o with
     | Ok v => Ok v
     | Err e => Err (wrapExecute t (wrapError "invalid operation" e))
     | Panic p => Err (errorString ("failed to execute: panic: " +:+ p))
     end, st2).
Proof.
  intros He HX HY Hkx Hky Ha Hb Ho.
  assert (Hop : op <> EQL /\ op <> NEQ) by (split; intros ->; discriminate Ho).
  eapply Execute_after_operands; try eassumption; try tauto; [congruence|].
  eapply binary_switch_int; eassumption.
Qed.

Lemma rem_fits a b : fits a -> fits b -> b <> 0%Z -> fits (Z.rem a b).
Proof.
  intros Ha Hb Hb0. pose proof (Z.rem_bound_abs a b Hb0) as Hr.
  unfold fits, MinInt64, MaxInt64 in *. lia.
Qed.

Lemma quot_wraps a b :
  fits a -> fits b -> b <> 0%Z ->
  int64 (a ÷ b) = if ((a =? MinInt64) && (b =? -1))%Z then MinInt64 else (a ÷ b)%Z.
Proof.
  intros Ha Hb Hb0.
  destruct (Z.eqb_spec b (-1)) as [->|Hb1].
  - assert (Hq : (a ÷ -1 = - a)%Z).
    { change (-1)%Z with (- (1))%Z. rewrite Z.quot_opp_r by lia. now rewrite Z.quot_1_r. }
    rewrite Hq.
    destruct (Z.eqb_spec a MinInt64) as [->|Hne]; cbn [andb].
    + vm_compute. reflexivity.
    + apply int64_fits. unfold fits, MinInt64, MaxInt64 in *. lia.
  - rewrite andb_false_r. apply int64_fits. now apply quot_fits.
Qed.

(** X2: For operands of one signed integer kind and a divisor other than
    zero, [/] is the quotient truncated toward zero, with
    [MinInt64 / -1] wrapping to [MinInt64] without an error, and [%] is the
    remainder with the sign of the dividend. *)
Theorem signed_division_truncates
    (t : Template) (X : Expr) (op : Token) (Y : Expr) (data : value)
    (st st1 st2 : state) (x y : value) (k : ikind) :
  expr t = BinaryExpr X op Y ->
  executeExpr t X data st = (Ok x, st1) ->
  executeExpr t Y data st1 = (Ok y, st2) ->
  Kind_of x = KInt k -> Kind_of y = KInt k ->
  exists a b : Z,
    Convert_int64 x = Some a /\ Convert_int64 y = Some b
    /\ (op = QUO -> b <> 0%Z ->
        Execute t data st =
          (Ok (VInt Int64 (if ((a =? MinInt64) && (b =? -1))%Z then MinInt64
                           else (a ÷ b)%Z)), st2))
    /\ (op = REM -> b <> 0%Z ->
        Execute t data st = (Ok (VInt Int64 (Z.rem a b)), st2)).
Proof.
  intros He HX HY Hkx Hky.
  destruct (Convert_int64_of_kind x k Hkx) as (a & Ha & Hfa).
  destruct (Convert_int64_of_kind y k Hky) as (b & Hb & Hfb).
  exists a, b. split; [exact Ha|]. split; [exact Hb|]. split.
  - intros -> Hb0.
    rewrite (Execute_int_binary _ _ _ _ _ _ _ _ _ _ _ _ _ _ He HX HY Hkx Hky Ha Hb eq_refl).
    destruct (Z.eqb_spec b 0) as [|_]; [contradiction|].
    now rewrite quot_wraps.
  - intros -> Hb0.
    rewrite (Execute_int_binary _ _ _ _ _ _ _ _ _ _ _ _ _ _ He HX HY Hkx Hky Ha Hb eq_refl).
    destruct (Z.eqb_spec b 0) as [|_]; [contradiction|].
    rewrite int64_fits by now apply rem_fits. reflexivity.
Qed.

(** Unary operators *)

Lemma executeUnaryExpr_operand t op X data st st1 x :
  executeExpr t X data st = (Ok x, st1) ->
  executeExpr t (UnaryExpr op X) data st =
    (let unknown : M value :=
       errorf ("unknown operation: operator " +:+ Token_String op
               +:+ " not defined on " +:+ TypeOf x) in
     match op with
     | SUB => if IsValid (Elem x)
              then match negate (Elem x) with Some o => liftO o | None => unknown end
              else unknown
     | NOT => if IsValid (Elem x)
              then match Elem x with VBool b => ret (VBool (negb b)) | _ => unknown end
              else unknown
     | _ => unknown
     end) st1.
Proof.
  intros HX. cbn [executeExpr]. unfold executeUnaryExpr, bind. rewrite HX. reflexivity.
Qed.

(** X3: Unary minus on a signed integer of a built-in type fails with
    [-(n) overflows <type>] exactly on the least value of the type, and
    otherwise gives the exact negation in the same type. *)
Theorem signed_negation_is_checked
    (t : Template) (X : Expr) (data : value) (st st1 : state)
    (x : value) (k : ikind) (n : Z) :
  executeExpr t X data st = (Ok x, st1) ->
  Elem x = VInt k n ->
  let v := int_val k n in
  (v = (- 2 ^ (ibits k - 1))%Z ->
   executeExpr t (UnaryExpr SUB X) data st =
     (Err (errorString ("-(" +:+ pretty v +:+ ") overflows " +:+ ikind_name k)), st1))
  /\ (v <> (- 2 ^ (ibits k - 1))%Z ->
      executeExpr t (UnaryExpr SUB X) data st = (Ok (VInt k (- v)), st1)
      /\ int_val k (- v) = (- v)%Z).
Proof.
  intros HX HE v. rewrite (executeUnaryExpr_operand _ _ _ _ _ _ _ HX). cbv zeta.
  rewrite HE. cbn [IsValid Kind_of negate]. fold v. split.
  - intros Hv. destruct (Z.eqb_spec v (- 2 ^ (ibits k - 1))); [reflexivity|contradiction].
  - intros Hv. destruct (Z.eqb_spec v (- 2 ^ (ibits k - 1))); [contradiction|].
    split; [reflexivity|].
    pose proof (wrap_signed_fits (ibits k) n ltac:(destruct k; cbn; lia)) as Hw.
    fold (int_val k n) in Hw. fold v in Hw.
    unfold int_val, wrap_signed.
    assert (H2 : (2 ^ ibits k = 2 * 2 ^ (ibits k - 1))%Z).
    { rewrite <- Z.pow_succ_r by (destruct k; cbn; lia). f_equal. lia. }
    rewrite Z.mod_small; lia.
Qed.

(** X4: Unary minus on an unsigned integer of a built-in type gives an
    [int]: the exact negation when the operand is at most [2^63], the error
    [-n overflows int] above; the operands of [uint8], [uint16] and [uint32]
    are always below the bound. *)
Theorem unsigned_negation_is_checked
    (t : Template) (X : Expr) (data : value) (st st1 : state)
    (x : value) (k : ukind) (n : Z) :
  executeExpr t X data st = (Ok x, st1) ->
  Elem x = VUint k n ->
  let m := uint_val k n in
  executeExpr t (UnaryExpr SUB X) data st =
    (if (m <=? 2 ^ 63)%Z then Ok (VInt Int (- m))
     else Err (errorString ("-" +:+ pretty m +:+ " overflows int")), st1)
  /\ (match k with Uint8 | Uint16 | Uint32 => (m <=? 2 ^ 63)%Z = true | _ => True end).
Proof.
  intros HX HE m. rewrite (executeUnaryExpr_operand _ _ _ _ _ _ _ HX). cbv zeta.
  rewrite HE. cbn [IsValid Kind_of].
  assert (Hm : (0 <= m < 2 ^ ubits k)%Z).
  { unfold m, uint_val, wrap_unsigned. apply Z.mod_pos_bound. destruct k; cbn; lia. }
  assert (Hneg : (m <= 2 ^ 63)%Z -> int64 (- int64 m) = (- m)%Z).
  { intros Hle. destruct (Z.eq_dec m (2 ^ 63)%Z) as [Heq|Hne]; [rewrite Heq; vm_compute; reflexivity|].
    rewrite (int64_fits m) by (unfold fits, MinInt64, MaxInt64; lia).
    apply int64_fits. unfold fits, MinInt64, MaxInt64. lia. }
  split.
  - destruct k; cbn [negate]; fold m; unfold neg_uint; cbn [andb ubits] in *;
      rewrite ?Z.gtb_ltb;
      destruct (Z.ltb_spec (2 ^ 63)%Z m), (Z.leb_spec m (2 ^ 63)%Z); try lia;
      try reflexivity; cbn [liftO]; unfold liftO; rewrite ?Hneg by lia; reflexivity.
  - destruct k; cbn [ubits] in *; try exact Logic.I; apply Z.leb_le; lia.
Qed.

(** X5: A unary operator on a value of a defined type (such as
    [time.Duration]) fails with [unknown operation], whatever its
    underlying type: the type switch has cases for the built-in types
    only. *)
Theorem unary_operators_reject_defined_types
    (t : Template) (op : Token) (X : Expr) (data : value) (st st1 : state)
    (T : string) (u : value) :
  executeExpr t X data st = (Ok (VNamed T u), st1) ->
  Kind_of u <> KPtr ->
  executeExpr t (UnaryExpr op X) data st =
    (Err (errorString ("unknown operation: operator " +:+ Token_String op
                       +:+ " not defined on " +:+ TypeOf (VNamed T u))), st1).
Proof.
  intros HX Hk. rewrite (executeUnaryExpr_operand _ _ _ _ _ _ _ HX). cbv zeta.
  assert (HE : Elem (VNamed T u) = VNamed T u).
  { cbn [Elem]. destruct (Kind_of u); try reflexivity. contradiction. }
  rewrite HE. destruct op; try reflexivity; destruct (IsValid (VNamed T u)); reflexivity.
Qed.

(** Kinds *)

(** X6: A binary operator whose operands are of different kinds fails with
    [invalid operation: x op y: mismatched types ...], for every operator,
    after both operands were evaluated. *)
Theorem mismatched_kinds_are_rejected
    (t : Template) (X : Expr) (op : Token) (Y : Expr) (data : value)
    (st st1 st2 : state) (x y : value) :
  executeExpr t X data st = (Ok x, st1) ->
  executeExpr t Y data st1 = (Ok y, st2) ->
  Kind_of x <> Kind_of y ->
  executeExpr t (BinaryExpr X op Y) data st =
    (Err (wrapError "invalid operation"
            (errorString (GoSyntax x +:+ " " +:+ Token_String op +:+ " " +:+ GoSyntax y
                          +:+ ": mismatched types " +:+ TypeOf x +:+ " and " +:+ TypeOf y))),
     st2).
Proof.
  intros HX HY Hk. cbn [executeExpr]. unfold mapErr, executeBinaryExpr, bind.
  rewrite HX, HY. destruct (decide (Kind_of x = Kind_of y)); [contradiction|reflexivity].
Qed.

(** X7: Two nil operands are equal: [==] gives [true], [!=] gives [false],
    and every other operator is [not defined on nil]. *)
Theorem nil_operands
    (t : Template) (X : Expr) (op : Token) (Y : Expr) (data : value)
    (st st1 st2 : state) (x y : value) :
  executeExpr t X data st = (Ok x, st1) ->
  executeExpr t Y data st1 = (Ok y, st2) ->
  Kind_of x = Invalid -> Kind_of y = Invalid ->
  executeExpr t (BinaryExpr X op Y) data st =
    (match op with
     | EQL => Ok (VBool true)
     | NEQ => Ok (VBool false)
     | _ => Err (wrapError "invalid operation"
                   (errorString ("operator " +:+ Token_String op +:+ " not defined on nil")))
     end, st2).
Proof.
  intros HX HY Hkx Hky. cbn [executeExpr]. unfold mapErr, executeBinaryExpr, bind.
  rewrite HX, HY. destruct (decide (Kind_of x = Kind_of y)) as [_|Hn]; [|congruence].
  unfold readH, equal. destruct (decide (Kind_of x = Invalid)) as [_|Hn]; [|contradiction].
  destruct op; try reflexivity; unfold binary_switch; rewrite Hkx; reflexivity.
Qed.

(** The conditional *)

(** X8: The conditional evaluates its condition and then only the chosen
    branch, from the state the condition left; a condition that is not a
    [bool] is an error. *)
Theorem conditional_evaluates_one_branch
    (t : Template) (C X Y : Expr) (data : value) (st st1 : state) (c : value) :
  executeExpr t C data st = (Ok c, st1) ->
  (c = VBool true ->
   executeExpr t (ConditionalExpr C X Y) data st = executeExpr t X data st1)
  /\ (c = VBool false ->
      executeExpr t (ConditionalExpr C X Y) data st = executeExpr t Y data st1)
  /\ ((forall b, c <> VBool b) ->
      executeExpr t (ConditionalExpr C X Y) data st =
        (Err (errorString ("invalid operation: operator ? not defined on " +:+ GoSyntax c
                           +:+ " (value of type " +:+ TypeOf c +:+ ")")), st1)).
Proof.
  intros HC. cbn [executeExpr]. unfold executeConditionalExpr, bind. rewrite HC.
  split; [|split].
  - intros ->. reflexivity.
  - intros ->. reflexivity.
  - intros Hnb. destruct c; try reflexivity. now destruct (Hnb b).
Qed.

End WithHost.

Lemma bytes_at_eq (h : heap) (s : slice) (a : list ascii) :
  h !! arr s = Some a -> bytes_at h s = take (len s) (drop (off s) a).
Proof. intros Ha. unfold bytes_at. now rewrite Ha. Qed.

Lemma bytes_at_lookup (h : heap) (s : slice) (a : list ascii) (i : nat) :
  h !! arr s = Some a ->
  bytes_at h s !! i = if (i <? len s)%nat then a !! (off s + i)%nat else None.
Proof.
  intros Ha. rewrite (bytes_at_eq _ _ _ Ha).
  destruct (Nat.ltb_spec i (len s)) as [Hlt|Hge].
  - rewrite lookup_take_lt by lia. now rewrite lookup_drop.
  - now rewrite lookup_take_ge by lia.
Qed.

Lemma bytes_at_length (h : heap) (s : slice) : slice_wf h s -> length (bytes_at h s) = len s.
Proof.
  intros (a & Ha & Hcap & Hlen). rewrite (bytes_at_eq _ _ _ Ha).
  rewrite length_take, length_drop. lia.
Qed.

Lemma written_lookup (a ys : list ascii) (pos i : nat) :
  (pos + length ys <= length a)%nat ->
  (take pos a ++ ys ++ drop (pos + length ys) a)%list !! i
  = if (i <? pos)%nat then a !! i
    else if (i <? pos + length ys)%nat then ys !! (i - pos)%nat
    else a !! i.
Proof.
  intros Hfit.
  destruct (Nat.ltb_spec i pos) as [Hlt|Hge].
  - rewrite lookup_app_l by (rewrite length_take; lia). now rewrite lookup_take_lt by lia.
  - rewrite lookup_app_r by (rewrite length_take; lia). rewrite length_take.
    replace (i - pos `min` length a)%nat with (i - pos)%nat by lia.
    destruct (Nat.ltb_spec i (pos + length ys)) as [Hlt2|Hge2].
    + now rewrite lookup_app_l by lia.
    + rewrite lookup_app_r by lia. rewrite lookup_drop. f_equal. lia.
Qed.

Lemma written_length (a ys : list ascii) (pos : nat) :
  (pos + length ys <= length a)%nat ->
  length (take pos a ++ ys ++ drop (pos + length ys) a)%list = length a.
Proof. intros Hfit. rewrite !length_app, length_take, length_drop. lia. Qed.

Section WithHost.
Context {H : Host}.

Lemma executeBinaryExpr_bytes t X Y data st st1 st2 xb yb :
  executeExpr t X data st = (Ok (VBytes xb), st1) ->
  executeExpr t Y data st1 = (Ok (VBytes yb), st2) ->
  executeBinaryExpr executeExpr t X ADD Y data st =
    (let '(o, st') := append_bytes xb yb st2 in
     (match o with Ok s => Ok (VBytes s) | Err e => Err e | Panic p => Panic p end, st')).
Proof.
  intros HX HY.
  erewrite executeBinaryExpr_operands; [|exact HX|exact HY|reflexivity|discriminate..].
  unfold binary_switch. cbn [Kind_of bytes_binary]. unfold bind.
  destruct (append_bytes xb yb st2) as [[s|e|p] st']; reflexivity.
Qed.

(** X9: [+] on byte slices that lie within their arrays gives a slice
    whose content is the left operand's bytes followed by the right one's,
    again within its array; the function stash is untouched. *)
Theorem bytes_concatenation
    (t : Template) (X Y : Expr) (data : value) (st st1 st2 : state) (xb yb : slice) :
  executeExpr t X data st = (Ok (VBytes xb), st1) ->
  executeExpr t Y data st1 = (Ok (VBytes yb), st2) ->
  slice_wf (mem st2) xb -> slice_wf (mem st2) yb ->
  exists (r : slice) (st3 : state),
    executeBinaryExpr executeExpr t X ADD Y data st = (Ok (VBytes r), st3)
    /\ bytes_at (mem st3) r = (bytes_at (mem st2) xb ++ bytes_at (mem st2) yb)%list
    /\ slice_wf (mem st3) r
    /\ argFuncs st3 = argFuncs st2.
Proof.
  intros HX HY Hwx Hwy. rewrite (executeBinaryExpr_bytes _ _ _ _ _ _ _ _ _ HX HY).
  pose proof (bytes_at_length _ _ Hwx) as Hlx. pose proof (bytes_at_length _ _ Hwy) as Hly.
  destruct Hwx as (a & Ha & Hcap & Hlen).
  unfold append_bytes.
  destruct (Nat.leb_spec (len xb + len yb) (cap xb)) as [Hfit|Hgrow].
  - eexists _, _. split; [reflexivity|]. cbn [mem argFuncs].
    unfold write_at. rewrite Ha. cbv beta iota.
    set (ys := bytes_at (mem st2) yb) in *.
    set (a' := (take (off xb + len xb) a ++ ys ++ drop (off xb + len xb + length ys) a)%list).
    assert (Hla : (arr xb < length (mem st2))%nat) by (eapply lookup_lt_Some; eauto).
    assert (Ha' : <[arr xb := a']> (mem st2) !! arr xb = Some a')
      by now apply list_lookup_insert_eq.
    split; [|split; [|reflexivity]].
    + apply list_eq. intros i.
      rewrite (bytes_at_lookup _
                 {| arr := arr xb; off := off xb; len := len xb + len yb; cap := cap xb |}
                 a' i Ha').
      cbn [len off arr].
      unfold a'. rewrite written_lookup by lia.
      destruct (Nat.ltb_spec i (len xb + len yb)) as [Hi|Hi].
      * destruct (Nat.ltb_spec (off xb + i) (off xb + len xb)) as [Hi2|Hi2].
        -- rewrite lookup_app_l by lia.
           rewrite (bytes_at_lookup _ _ a i Ha).
           destruct (Nat.ltb_spec i (len xb)); [reflexivity|lia].
        -- destruct (Nat.ltb_spec (off xb + i) (off xb + len xb + length ys)); [|lia].
           rewrite lookup_app_r by lia. f_equal. lia.
      * symmetry. apply lookup_ge_None. rewrite length_app. lia.
    + exists a'. cbn [arr off len cap]. split; [exact Ha'|].
      unfold a'. rewrite written_length by lia. lia.
  - eexists _, _. split; [reflexivity|]. cbn [mem argFuncs].
    set (fresh := (bytes_at (mem st2) xb ++ bytes_at (mem st2) yb)%list).
    assert (Hf : (mem st2 ++ [fresh])%list !! length (mem st2) = Some fresh).
    { rewrite lookup_app_r by lia. now rewrite Nat.sub_diag. }
    split; [|split; [|reflexivity]].
    + rewrite (bytes_at_eq _ _ fresh) by exact Hf. cbn [arr off len drop].
      apply firstn_all.
    + exists fresh. cbn [arr off len cap]. split; [exact Hf|]. lia.
Qed.

(** X10: [+] on byte slices leaves the content of a third slice as it was
    when that slice is on another array, ends before the end of the left
    operand, starts after the appended bytes, or when the left operand has
    no room and [append] allocates. *)
Theorem bytes_append_frame
    (t : Template) (X Y : Expr) (data : value) (st st1 st2 st3 : state)
    (xb yb s : slice) (o : outcome value) :
  executeExpr t X data st = (Ok (VBytes xb), st1) ->
  executeExpr t Y data st1 = (Ok (VBytes yb), st2) ->
  slice_wf (mem st2) xb -> slice_wf (mem st2) yb -> slice_wf (mem st2) s ->
  executeBinaryExpr executeExpr t X ADD Y data st = (o, st3) ->
  (arr s <> arr xb
   \/ (off s + len s <= off xb + len xb)%nat
   \/ (off xb + len xb + len yb <= off s)%nat
   \/ (cap xb < len xb + len yb)%nat) ->
  bytes_at (mem st3) s = bytes_at (mem st2) s.
Proof.
  intros HX HY Hwx Hwy Hws Hexec Hcase.
  rewrite (executeBinaryExpr_bytes _ _ _ _ _ _ _ _ _ HX HY) in Hexec.
  pose proof (bytes_at_length _ _ Hwy) as Hly.
  destruct Hwx as (a & Ha & Hcap & Hlen). destruct Hws as (b & Hb & Hcapb & Hlenb).
  unfold append_bytes in Hexec.
  destruct (Nat.leb_spec (len xb + len yb) (cap xb)) as [Hfit|Hgrow].
  - injection Hexec as _ <-. cbn [mem]. unfold write_at. rewrite Ha. cbv beta iota.
    set (ys := bytes_at (mem st2) yb) in *.
    destruct (decide (arr s = arr xb)) as [Heq|Hne].
    + assert (a = b) as <- by congruence.
      assert (Hla : (arr xb < length (mem st2))%nat) by (eapply lookup_lt_Some; eauto).
      apply list_eq. intros i.
      erewrite bytes_at_lookup by (rewrite Heq; now apply list_lookup_insert_eq).
      rewrite (bytes_at_lookup _ _ a i Hb).
      destruct (Nat.ltb_spec i (len s)) as [Hi|Hi]; [|reflexivity].
      rewrite written_lookup by lia.
      destruct (Nat.ltb_spec (off s + i) (off xb + len xb)); [reflexivity|].
      destruct (Nat.ltb_spec (off s + i) (off xb + len xb + length ys)); [lia|reflexivity].
    + unfold bytes_at, heap in *. now rewrite list_lookup_insert_ne by congruence.
  - injection Hexec as _ <-. cbn [mem]. unfold bytes_at, heap in *.
    rewrite lookup_app_l by (eapply lookup_lt_Some; eauto). reflexivity.
Qed.

End WithHost.

Section WithHost.
Context {H : Host}.

(** X12: While a left-arrow argument is executed, a parameter that
    evaluates gives a string: the empty string, a placeholder, or the
    marshalled text. *)
Theorem reserialised_parameter_is_text
    (t : Template) (X : option Expr) (Quoted : bool) (data : value)
    (st st' : state) (v : value) :
  executingLeftArrowExprArg t = true ->
  executeExpr t (ParameterExpr X Quoted) data st = (Ok v, st') ->
  exists s, v = VString s.
Proof.
  intros Hmode. cbn [executeExpr]. unfold executeParameterExpr.
  destruct X as [x|]; [|intros [= <- _]; eauto].
  unfold bind. destruct (executeExpr t x data st) as [[w|e|p] st1]; try discriminate.
  rewrite Hmode. destruct (decide (Kind_of (Elem w) = KFunc)).
  - unfold save. destruct Quoted; intros [= <- _]; eauto.
  - unfold liftH. destruct (yaml_Marshal w (mem st1)) as [[b|e|p] h]; try discriminate.
    intros [= <- _]. eauto.
Qed.

(** X13: A function saved in the stash by a parameter is found under the
    name that was given to it, and no later [Execute] on that state removes
    or replaces it. *)
Theorem stashed_function_stays
    (t : Template) (X : Expr) (Quoted : bool) (data : value)
    (st st1 st2 : state) (v r : value) :
  executingLeftArrowExprArg t = true ->
  stash_wf (stash_of st) ->
  executeExpr t X data st = (Ok v, st1) ->
  Kind_of (Elem v) = KFunc ->
  executeExpr t (ParameterExpr (Some X) Quoted) data st = (Ok r, st2) ->
  stash_of st2 !! stashName (size (stash_of st1)) = Some v
  /\ forall (t' : Template) (data' : value) (o : outcome value) (st3 : state),
       Execute t' data' st2 = (o, st3) ->
       stash_of st3 !! stashName (size (stash_of st1)) = Some v.
Proof.
  intros Hmode Hwf0 HX Hk. cbn [executeExpr]. unfold executeParameterExpr, bind.
  rewrite HX, Hmode. destruct (decide (Kind_of (Elem v) = KFunc)) as [_|Hn]; [|contradiction].
  unfold save. fold (stash_of st1). fold (stashName (size (stash_of st1))).
  destruct (keeps_executeExpr X t data _ _ _ HX Hwf0) as [Hwf1 _].
  intros Hsave.
  assert (Hst2 : stash_of st2 = <[stashName (size (stash_of st1)) := v]> (stash_of st1)).
  { destruct Quoted; injection Hsave as _ <-; reflexivity. }
  assert (Hl : stash_of st2 !! stashName (size (stash_of st1)) = Some v).
  { rewrite Hst2. apply lookup_insert_eq. }
  split; [exact Hl|].
  intros t' data' o st3 Hexec.
  assert (Hwf2 : stash_wf (stash_of st2)).
  { rewrite Hst2. now apply save_keeps_stash_wf. }
  destruct (keeps_Execute t' data' _ _ _ Hexec Hwf2) as [_ Hsub].
  eapply lookup_weaken; eassumption.
Qed.

Lemma executeFuncCall_plain_callee t Fun data st st1 fn :
  (forall X Sel, Fun <> SelectorExpr X Sel) ->
  executeExpr t Fun data st = (Ok fn, st1) ->
  exists fnName,
    resolveCallee executeExpr t Fun data st = (Ok (fn, fnName, []), st1).
Proof.
  intros Hns HF. unfold resolveCallee.
  destruct Fun; try (unfold bind; rewrite HF; eexists; reflexivity).
  now destruct (Hns Fun Sel).
Qed.

(** X15: A call of a value that is not a function, or with a number of
    arguments the function type does not take, is rejected with the
    matching error before any argument is evaluated. *)
Theorem arity_is_checked_first
    (t : Template) (Fun : Expr) (Args : list Expr) (data : value)
    (st st1 : state) (fn : value) :
  (forall X Sel, Fun <> SelectorExpr X Sel) ->
  executeExpr t Fun data st = (Ok fn, st1) ->
  (Kind_of fn <> KFunc ->
   executeExpr t (CallExpr Fun Args) data st = (Err (errorString "not function"), st1))
  /\ (Kind_of fn = KFunc -> IsVariadic (FuncType fn) = false ->
      NumIn (FuncType fn) <> length Args ->
      executeExpr t (CallExpr Fun Args) data st =
        (Err (errorString
                ("expected function argument number is " +:+ pretty (NumIn (FuncType fn))
                 +:+ " but specified " +:+ pretty (length Args) +:+ " arguments")),
         st1))
  /\ (Kind_of fn = KFunc -> IsVariadic (FuncType fn) = true ->
      (length Args + 1 < NumIn (FuncType fn))%nat ->
      executeExpr t (CallExpr Fun Args) data st =
        (Err (errorString
                ("too few arguments to function: expected minimum argument number is "
                 +:+ pretty (Z.of_nat (NumIn (FuncType fn)) - 1)%Z
                 +:+ ". but specified " +:+ pretty (length Args) +:+ " arguments")),
         st1)).
Proof.
  intros Hns HF.
  destruct (executeFuncCall_plain_callee t Fun data st st1 fn Hns HF) as [fnName Hc].
  cbn [executeExpr]. unfold executeFuncCall, bind. rewrite Hc.
  split; [|split].
  - intros Hk. destruct (decide (Kind_of fn = KFunc)); [contradiction|reflexivity].
  - intros Hk Hv Hn. destruct (decide (Kind_of fn = KFunc)); [|contradiction].
    rewrite Hv. cbn [length Nat.add].
    destruct (Nat.eqb_spec (NumIn (FuncType fn)) (length Args)); [contradiction|].
    reflexivity.
  - intros Hk Hv Hn. destruct (decide (Kind_of fn = KFunc)); [|contradiction].
    rewrite Hv. cbn [length Nat.add].
    destruct (Z.ltb_spec (Z.of_nat (length Args)) (Z.of_nat (NumIn (FuncType fn)) - 1));
      [reflexivity|lia].
Qed.

(** X16: A call [x.Sel(..)] where the selector is not found and [x] is nil
    (or a nil pointer) panics in [getMethod] on the type of the zero value;
    [Execute] returns it as an error. *)
Theorem method_call_on_nil_panics
    (t : Template) (X : Expr) (Sel : string) (Args : list Expr) (data : value)
    (st st1 : state) (x : value) (err : error) :
  executeExpr t X data st = (Ok x, st1) ->
  lookup (Ident Sel) x = Err err ->
  IsValid (Elem x) = false ->
  executeExpr t (CallExpr (SelectorExpr X Sel) Args) data st
  = (Panic "reflect: call of reflect.Value.Type on zero Value", st1)
  /\ (expr t = CallExpr (SelectorExpr X Sel) Args ->
      Execute t data st =
        (Err (errorString
                "failed to execute: panic: reflect: call of reflect.Value.Type on zero Value"),
         st1)).
Proof.
  intros HX Hl Hv.
  assert (Hcall : executeExpr t (CallExpr (SelectorExpr X Sel) Args) data st
                  = (Panic "reflect: call of reflect.Value.Type on zero Value", st1)).
  { cbn [executeExpr]. unfold executeFuncCall, resolveCallee, bind. rewrite HX, Hl.
    unfold liftO, getMethod. rewrite Hv. reflexivity. }
  split; [exact Hcall|].
  intros He. unfold Execute, Execute_with, recovered, mapErr. rewrite He, Hcall. reflexivity.
Qed.

Lemma executeArgs_loop_result t fnName fnType data args :
  forall i vs st rs st',
    executeArgs_loop executeExpr t fnName fnType data i vs args st = (Ok rs, st') ->
    exists added,
      rs = (vs ++ added)%list /\ length added = length args
      /\ forall j v, added !! j = Some v ->
           IsValid v = true
           /\ TypeOf v = requiredFuncArgType fnType (length vs + j).
Proof.
  induction args as [|arg rest IH]; intros i vs st rs st'; cbn [executeArgs_loop].
  - intros [= <- _]. exists []. rewrite app_nil_r. split; [reflexivity|].
    split; [reflexivity|]. intros j v Hj. discriminate.
  - unfold bind. destruct (executeExpr t arg data st) as [[a|e|p] st1]; try discriminate.
    destruct (Convert (requiredFuncArgType fnType (length vs)) a) as [vv ok].
    set (v := if ok then vv else a).
    destruct (IsValid v) eqn:Hvalid; cbn [negb]; [|discriminate].
    destruct (String.eqb_spec (TypeOf v) (requiredFuncArgType fnType (length vs)))
      as [Hty|Hty]; cbn [negb]; [|discriminate].
    intros Hrest. destruct (IH _ _ _ _ _ Hrest) as (added & -> & Hlen & Hall).
    exists (v :: added). rewrite <- app_assoc. split; [reflexivity|].
    split; [cbn; lia|].
    intros [|j] w Hj.
    + injection Hj as <-. rewrite Nat.add_0_r. now split.
    + destruct (Hall j w Hj) as [Hv Ht]. split; [exact Hv|].
      rewrite Ht, length_app. cbn [length]. f_equal. lia.
Qed.

(** X17: When [executeArgs] succeeds, it has appended one valid value for
    each argument expression, in order, each of the type the function
    requires at its position. *)
Theorem arguments_have_the_required_types
    (t : Template) (fnName : string) (fnType : functype) (vs : list value)
    (args : list Expr) (data : value) (st st' : state) (rs : list value) :
  executeArgs executeExpr t fnName fnType vs args data st = (Ok rs, st') ->
  exists added,
    rs = (vs ++ added)%list /\ length added = length args
    /\ forall j v, added !! j = Some v ->
         IsValid v = true
         /\ TypeOf v = requiredFuncArgType fnType (length vs + j).
Proof. unfold executeArgs. apply executeArgs_loop_result. Qed.

(** X18: [Execute] gives a value exactly when the expression does, and the
    message of every error it returns starts with [failed to execute: ]. *)
Theorem Execute_errors_are_labelled
    (t : Template) (data : value) (st : state) :
  (forall v st', Execute t data st = (Ok v, st') <->
                 executeExpr t (expr t) data st = (Ok v, st'))
  /\ (forall e st', Execute t data st = (Err e, st') ->
        exists rest, Error e = "failed to execute: " +:+ rest).
Proof.
  unfold Execute, Execute_with, recovered, mapErr.
  destruct (executeExpr t (expr t) data st) as [[v|e|p] st1]; split.
  - intros v' st'. split; intros Heq; exact Heq.
  - intros e st' Heq. discriminate Heq.
  - intros v' st'. split; intros Heq; discriminate Heq.
  - intros e' st' [= <- _]. unfold wrapExecute.
    destruct (GoStrings.ContainsByte (str t) LF); cbn [Error];
      rewrite !app_assoc_s; eexists; reflexivity.
  - intros v' st'. split; intros Heq; discriminate Heq.
  - intros e' st' [= <- _]. cbn [Error]. eexists.
    change ("failed to execute: panic: " +:+ p) with ("failed to execute: " +:+ "panic: " +:+ p).
    reflexivity.
Qed.

End WithHost.

Lemma Split_cons_LF (s : string) :
  GoStrings.Split (String LF s) LF = "" :: GoStrings.Split s LF.
Proof. reflexivity. Qed.

Lemma Split_nonempty (s : string) : GoStrings.Split s LF <> [].
Proof.
  induction s as [|a s IH]; cbn [GoStrings.Split]; [discriminate|].
  destruct (Ascii.eqb a LF); [discriminate|].
  destruct (GoStrings.Split s LF); [contradiction|discriminate].
Qed.

Lemma Split_lines_no_LF (s : string) : Forall no_LF (GoStrings.Split s LF).
Proof.
  induction s as [|a s IH]; cbn [GoStrings.Split].
  - constructor; [reflexivity|constructor].
  - destruct (Ascii.eqb a LF) eqn:Ha.
    + constructor; [reflexivity|exact IH].
    + destruct (GoStrings.Split s LF) as [|p ps]; [constructor; [|constructor]|].
      * unfold no_LF. cbn [GoStrings.ContainsByte]. now rewrite Ha.
      * inversion IH as [|? ? Hp Hps]; subst. constructor; [|exact Hps].
        unfold no_LF in *. cbn [GoStrings.ContainsByte]. now rewrite Ha.
Qed.

Lemma Split_app_LF (l r : string) :
  no_LF l -> GoStrings.Split (l +:+ String LF r) LF = l :: GoStrings.Split r LF.
Proof.
  induction l as [|a l IH]; intros Hl; [reflexivity|].
  unfold no_LF in *. cbn [GoStrings.ContainsByte] in Hl.
  rewrite app_cons_s. cbn [GoStrings.Split].
  destruct (Ascii.eqb a LF); [discriminate|]. now rewrite IH.
Qed.

Lemma Split_no_LF (l : string) : no_LF l -> GoStrings.Split l LF = [l].
Proof.
  induction l as [|a l IH]; intros Hl; [reflexivity|].
  unfold no_LF in *. cbn [GoStrings.ContainsByte] in Hl. cbn [GoStrings.Split].
  destruct (Ascii.eqb a LF); [discriminate|]. now rewrite IH.
Qed.

Lemma Split_lines_after (l : string) (ls : list string) :
  no_LF l -> Forall no_LF ls ->
  GoStrings.Split (l +:+ lines_after ls) LF = l :: ls.
Proof.
  intros Hl Hls. revert l Hl. induction Hls as [|s rest Hs _ IH]; intros l Hl.
  - cbn [lines_after]. rewrite app_nil_r_s. now apply Split_no_LF.
  - cbn [lines_after]. change (nl +:+ s +:+ lines_after rest)
      with (String LF (s +:+ lines_after rest)).
    rewrite Split_app_LF by exact Hl. now rewrite IH.
Qed.

Lemma Join_Split (s : string) : GoStrings.Join (GoStrings.Split s LF) nl = s.
Proof.
  induction s as [|a s IH]; [reflexivity|]. cbn [GoStrings.Split].
  destruct (Ascii.eqb_spec a LF) as [->|Hne].
  - destruct (GoStrings.Split s LF) as [|p ps] eqn:Hs.
    + now destruct (Split_nonempty s).
    + rewrite Join_cons. rewrite Join_cons in IH. cbn [lines_after].
      now rewrite IH.
  - destruct (GoStrings.Split s LF) as [|p ps] eqn:Hs.
    + now destruct (Split_nonempty s).
    + rewrite Join_cons. rewrite Join_cons in IH. rewrite app_cons_s. now rewrite IH.
Qed.

Lemma Repeat_space_no_LF (n : nat) : no_LF (GoStrings.Repeat " " n).
Proof. induction n as [|n IH]; [reflexivity|exact IH]. Qed.

Lemma app_no_LF (a b : string) : no_LF a -> no_LF b -> no_LF (a +:+ b).
Proof.
  unfold no_LF. induction a as [|x a IH]; intros Ha Hb; [exact Hb|].
  rewrite app_cons_s. cbn [GoStrings.ContainsByte] in *.
  destruct (Ascii.eqb x LF); [discriminate|]. now apply IH.
Qed.

Lemma indented_lines_no_LF (n : nat) (ls : list string) :
  Forall no_LF ls -> Forall no_LF (indented_lines (GoStrings.Repeat " " n) ls).
Proof.
  intros Hls. destruct Hls as [|l rest Hl Hrest]; [constructor|].
  cbn [indented_lines]. constructor; [exact Hl|].
  induction Hrest as [|s r Hs _ IH]; [constructor|].
  cbn [map]. constructor; [|exact IH].
  destruct (String.eqb s ""); [exact Hs|].
  apply app_no_LF; [apply Repeat_space_no_LF|exact Hs].
Qed.

Lemma indented_lines_empty_prefix (ls : list string) : indented_lines "" ls = ls.
Proof.
  destruct ls as [|l rest]; [reflexivity|]. cbn [indented_lines]. f_equal.
  induction rest as [|s r IH]; [reflexivity|]. cbn [map]. rewrite IH.
  now destruct (String.eqb s "").
Qed.

(** X19: In a left-arrow argument, [addIndent] of a text with line feeds
    keeps the number of lines and changes each line after the first as the
    indentation rule says; when the prefix ends with a line feed the text is
    returned as it is. *)
Theorem addIndent_keeps_the_lines (t : Template) (S P : string) :
  executingLeftArrowExprArg t = true ->
  GoStrings.ContainsByte S LF = true ->
  P <> "" ->
  GoStrings.Split (addIndent t S P) LF
  = indented_lines (indent_of P) (GoStrings.Split S LF)
  /\ length (GoStrings.Split (addIndent t S P) LF) = length (GoStrings.Split S LF)
  /\ (GoStrings.last_piece (GoStrings.Split P LF) = "" -> addIndent t S P = S).
Proof.
  intros Hmode HS HP. rewrite addIndent_rule, Hmode, HS.
  destruct (String.eqb_spec P "") as [|_]; [contradiction|]. cbn [andb negb].
  assert (Hsplit : GoStrings.Split
                     (GoStrings.Join (indented_lines (indent_of P) (GoStrings.Split S LF)) nl) LF
                   = indented_lines (indent_of P) (GoStrings.Split S LF)).
  { pose proof (indented_lines_no_LF
                  (GoStrings.RuneCount (GoStrings.last_piece (GoStrings.Split P LF)))
                  _ (Split_lines_no_LF S)) as Hno.
    fold (indent_of P) in Hno.
    destruct (indented_lines (indent_of P) (GoStrings.Split S LF)) as [|l ls] eqn:Hi.
    - destruct (GoStrings.Split S LF) eqn:Hs; [now destruct (Split_nonempty S)|discriminate].
    - rewrite Join_cons. inversion Hno; subst. now apply Split_lines_after. }
  split; [exact Hsplit|]. split.
  - rewrite Hsplit. destruct (GoStrings.Split S LF); [reflexivity|].
    cbn [indented_lines length]. now rewrite length_map.
  - intros Hlast. unfold indent_of. rewrite Hlast. cbn [GoStrings.RuneCount GoStrings.Repeat].
    change (GoStrings.Repeat " " (GoStrings.RuneCount "")) with "".
    rewrite indented_lines_empty_prefix. apply Join_Split.
Qed.

(** Integer literals *)

Local Open Scope Z_scope.

Lemma ParseUint_loop_nonneg base0 base s :
  0 < base ->
  forall n u r, 0 <= n ->
    Strconv.ParseUint_loop base0 base n u s = inr r -> 0 <= fst r.
Proof.
  intros Hbase. induction s as [|c rest IH]; intros n u r Hn; cbn [Strconv.ParseUint_loop].
  - intros [= <-]. exact Hn.
  - destruct ((c =? Strconv.ch "_")%N && base0); [apply IH; exact Hn|].
    match goal with |- context [match ?dd with Some _ => _ | None => _ end] =>
      destruct dd as [d|] eqn:Hd end; [|discriminate].
    assert (Hd0 : 0 <= d).
    { destruct ((Strconv.ch "0" <=? c)%N && (c <=? Strconv.ch "9")%N).
      - injection Hd as <-. lia.
      - destruct ((Strconv.ch "a" <=? Strconv.lower c)%N
                  && (Strconv.lower c <=? Strconv.ch "z")%N); [|discriminate].
        injection Hd as <-. lia. }
    destruct (base <=? d); [discriminate|].
    destruct (Strconv.maxUint64 / base + 1 <=? n); [discriminate|].
    destruct (Strconv.maxUint64 <? n * base + d); [discriminate|].
    apply IH. nia.
Qed.

Lemma ParseUint0_nonneg s n : Strconv.ParseUint0 s = inr n -> 0 <= n.
Proof.
  unfold Strconv.ParseUint0. destruct s as [|c0 t0]; [discriminate|].
  match goal with |- context [let '(_, _) := ?p in _] => destruct p as [base digits] eqn:Hp end.
  assert (Hbase : 0 < base).
  { destruct (c0 =? Strconv.ch "0")%N.
    - destruct t0 as [|c1 [|c2 t2]]; try (injection Hp as <- _; lia).
      destruct (Strconv.lower c1 =? Strconv.ch "b")%N; [injection Hp as <- _; lia|].
      destruct (Strconv.lower c1 =? Strconv.ch "o")%N; [injection Hp as <- _; lia|].
      destruct (Strconv.lower c1 =? Strconv.ch "x")%N; injection Hp as <- _; lia.
    - injection Hp as <- _. lia. }
  destruct (Strconv.ParseUint_loop true base 0 false digits) as [e|[m u]] eqn:Hl; [discriminate|].
  pose proof (ParseUint_loop_nonneg _ _ _ Hbase _ _ _ (Z.le_refl 0) Hl) as Hm. cbn [fst] in Hm.
  destruct (u && negb _); [discriminate|]. intros [= <-]. exact Hm.
Qed.

Lemma ParseInt0_fits s n : Strconv.ParseInt0 s = inr n -> fits n.
Proof.
  unfold Strconv.ParseInt0. destruct (GoStrings.bytes_of s) as [|c rest]; [discriminate|].
  match goal with |- context [let '(_, _) := ?p in _] => destruct p as [neg body] end.
  destruct (Strconv.ParseUint0 body) as [[|]|un] eqn:Hu; try discriminate.
  pose proof (ParseUint0_nonneg _ _ Hu) as Hun.
  destruct neg; cbn [negb andb].
  - destruct (Z.ltb_spec (2 ^ 63) un); [discriminate|]. intros [= <-].
    unfold fits, MinInt64, MaxInt64. lia.
  - destruct (Z.leb_spec (2 ^ 63) un); [discriminate|]. intros [= <-].
    unfold fits, MinInt64, MaxInt64. lia.
Qed.

Local Close Scope Z_scope.

Section WithHost.
Context {H : Host}.

(** X20: An integer literal that evaluates gives an [int64] within range,
    the value [strconv.ParseInt] reads with base 0, and leaves the state as
    it was. *)
Theorem integer_literals_fit_int64
    (t : Template) (lit : string) (data : value) (st st' : state) (v : value) :
  executeExpr t (BasicLit INT lit) data st = (Ok v, st') ->
  exists n : Z, v = VInt Int64 n /\ fits n /\ Strconv.ParseInt0 lit = inr n /\ st' = st.
Proof.
  cbn [executeExpr]. unfold executeBasicLit.
  destruct (Strconv.ParseInt0 lit) as [e|n] eqn:Hp; [discriminate|].
  intros [= <- <-]. exists n. split; [reflexivity|]. split; [|split; reflexivity].
  exact (ParseInt0_fits _ _ Hp).
Qed.

End WithHost.

Lemma bytes_Compare_eq (a b : list ascii) : bytes_Compare a b = Eq <-> a = b.
Proof.
  revert b. induction a as [|x a IH]; intros [|y b]; cbn [bytes_Compare];
    try (split; [discriminate|congruence]); [tauto|].
  destruct (N.compare_spec (N_of_ascii x) (N_of_ascii y)) as [Heq|Hlt|Hgt].
  - apply (f_equal ascii_of_N) in Heq. rewrite !ascii_N_embedding in Heq. subst y.
    rewrite IH. split; congruence.
  - split; [discriminate|]. intros [= -> _]. lia.
  - split; [discriminate|]. intros [= -> _]. lia.
Qed.

Lemma same_ret {A} (a : A) : same_stash (ret a).
Proof. intros st o st' [= _ <-]. reflexivity. Qed.
Lemma same_fail {A} (e : error) : same_stash (@fail A e).
Proof. intros st o st' [= _ <-]. reflexivity. Qed.
Lemma same_errorf {A} (msg : string) : same_stash (@errorf A msg).
Proof. apply same_fail. Qed.
Lemma same_panic {A} (p : string) : same_stash (@panic A p).
Proof. intros st o st' [= _ <-]. reflexivity. Qed.
Lemma same_liftO {A} (o : outcome A) : same_stash (liftO o).
Proof. intros st o' st' [= _ <-]. reflexivity. Qed.
Lemma same_readH {A} (f : heap -> A) : same_stash (readH f).
Proof. intros st o' st' [= _ <-]. reflexivity. Qed.
Lemma same_liftH {A} (m : HostM A) : same_stash (liftH m).
Proof.
  intros st o st'. unfold liftH. destruct (m (mem st)) as [o' h]. intros [= _ <-]. reflexivity.
Qed.
Lemma same_append_bytes xb yb : same_stash (append_bytes xb yb).
Proof.
  intros st o st'. unfold append_bytes.
  destruct (len xb + len yb <=? cap xb)%nat; intros [= _ <-]; reflexivity.
Qed.
Lemma same_bind {A B} (m : M A) (k : A -> M B) :
  same_stash m -> (forall a, same_stash (k a)) -> same_stash (bind m k).
Proof.
  intros Hm Hk st o st'. unfold bind.
  destruct (m st) as [[a|e|p] st1] eqn:Hrun; intros Heq.
  - rewrite (Hk a _ _ _ Heq). exact (Hm _ _ _ Hrun).
  - injection Heq as _ <-. exact (Hm _ _ _ Hrun).
  - injection Heq as _ <-. exact (Hm _ _ _ Hrun).
Qed.
Lemma same_mapErr {A} (f : error -> error) (m : M A) : same_stash m -> same_stash (mapErr f m).
Proof.
  intros Hm st o st'. unfold mapErr.
  destruct (m st) as [[a|e|p] st1] eqn:Hrun; intros [= _ <-]; exact (Hm _ _ _ Hrun).
Qed.

Section WithHost.
Context {H : Host}.

Ltac same_step :=
  first
    [ apply same_ret | apply same_errorf | apply same_fail | apply same_panic
    | apply same_liftO | apply same_liftH | apply same_readH
    | apply same_append_bytes
    | apply same_bind; [|intros ?]
    | apply same_mapErr ].

Ltac same_cases :=
  repeat first
    [ same_step
    | assumption
    | match goal with
      | |- same_stash (match ?x with _ => _ end) => destruct x
      | |- same_stash (if ?b then _ else _) => destruct b
      | |- same_stash (let '(_, _) := ?p in _) => destruct p
      end ].

Lemma same_binary_switch t op Y x y : same_stash (binary_switch t op Y x y).
Proof.
  unfold binary_switch.
  destruct (Kind_of x); try solve [same_cases].
  destruct x, y; try solve [same_cases].
  unfold bytes_binary. destruct op; same_cases.
Qed.

Lemma same_executeArgs_loop t fnName fnType data args :
  Forall (fun e => forall data, same_stash (executeExpr t e data)) args ->
  forall i vs, same_stash (executeArgs_loop executeExpr t fnName fnType data i vs args).
Proof.
  induction 1 as [|arg rest Harg _ IH]; intros i vs; cbn [executeArgs_loop].
  - same_cases.
  - apply same_bind; [apply Harg|]. intros a.
    destruct (Convert _ a) as [vv ok].
    destruct (negb (IsValid _)); [same_cases|].
    destruct (negb (String.eqb _ _)); [same_cases|]. apply IH.
Qed.

Lemma has_arrow_args (args : list Expr) :
  (fix any (l : list Expr) : bool :=
     match l with [] => false | x :: r => has_arrow x || any r end) args = false ->
  Forall (fun e => has_arrow e = false) args.
Proof.
  induction args as [|a rest IH]; intros Hany; [constructor|].
  apply orb_false_elim in Hany as [Ha Hrest]. constructor; auto.
Qed.

Lemma normal_mode_same_stash (e : Expr) :
  forall t data,
    executingLeftArrowExprArg t = false -> has_arrow e = false ->
    same_stash (executeExpr t e data).
Proof.
  induction e using Expr_induction; intros t data Hmode Harrow;
    cbn [executeExpr]; cbn [has_arrow] in Harrow.
  - unfold executeBasicLit. same_cases.
  - unfold executeParameterExpr. destruct X as [x|]; [|same_cases].
    cbn in H0. apply same_bind; [now apply H0|]. intros v. rewrite Hmode. same_cases.
  - now apply IHe.
  - unfold executeUnaryExpr. apply same_bind; [now apply IHe|]. intros x.
    destruct op; same_cases.
  - apply orb_false_elim in Harrow as [HX HY].
    apply same_mapErr. unfold executeBinaryExpr.
    apply same_bind; [now apply IHe1|]. intros x.
    apply same_bind; [now apply IHe2|]. intros y.
    destruct (decide (Kind_of x = Kind_of y)); [|same_cases].
    apply same_bind; [same_cases|]. intros [b ok].
    destruct op, ok; try apply same_binary_switch; same_cases.
  - apply orb_false_elim in Harrow as [Harrow HY].
    apply orb_false_elim in Harrow as [HC HX].
    unfold executeConditionalExpr. apply same_bind; [now apply IHe1|]. intros c.
    destruct c; try solve [same_cases]. destruct b; [now apply IHe2|now apply IHe3].
  - same_cases.
  - same_cases.
  - same_cases.
  - apply orb_false_elim in Harrow as [HF Hargs]. apply has_arrow_args in Hargs.
    unfold executeFuncCall.
    apply same_bind.
    { unfold resolveCallee.
      destruct e; try solve [apply same_bind; [now apply IHe|intros ?; same_cases]].
      cbn [has_arrow] in HF. apply same_bind; [now apply H0|]. intros x. same_cases. }
    intros [[fn fnName] recv].
    destruct (decide (Kind_of fn = KFunc)); [|same_cases].
    match goal with |- same_stash (match ?x with _ => _ end) => destruct x end; [same_cases|].
    apply same_bind.
    { unfold executeArgs. apply same_executeArgs_loop.
      rewrite Forall_forall in H1, Hargs |- *. intros a Ha data'.
      apply H1; auto. }
    intros vs. apply same_bind; [same_cases|]. intros rs. unfold callResult. same_cases.
  - discriminate.
  - unfold executeDefinedExpr. destruct e; same_cases.
  - same_cases.
Qed.

(** X14: A template that is not a left-arrow argument and holds no
    left-arrow expression leaves the function stash as it found it,
    whatever the outcome. *)
Theorem normal_mode_never_stashes
    (t : Template) (data : value) (st st' : state) (o : outcome value) :
  executingLeftArrowExprArg t = false ->
  has_arrow (expr t) = false ->
  Execute t data st = (o, st') ->
  argFuncs st' = argFuncs st.
Proof.
  intros Hmode Harrow. unfold Execute, Execute_with, recovered.
  pose proof (normal_mode_same_stash (expr t) t data Hmode Harrow) as Hsame.
  apply (same_mapErr (wrapExecute t)) in Hsame. revert Hsame.
  generalize (mapErr (wrapExecute t) (executeExpr t (expr t) data)). intros m Hsame.
  destruct (m st) as [[v|e|p] st1] eqn:Hrun; intros [= _ <-]; exact (Hsame _ _ _ Hrun).
Qed.

(** X11: [==] and [!=] on byte slices, which are not comparable, compare
    the contents ([bytes.Equal]): equal exactly when the bytes are the
    same. *)
Theorem byte_slices_are_equal_by_content
    (t : Template) (X : Expr) (op : Token) (Y : Expr) (data : value)
    (st st1 st2 : state) (xb yb : slice) :
  executeExpr t X data st = (Ok (VBytes xb), st1) ->
  executeExpr t Y data st1 = (Ok (VBytes yb), st2) ->
  comparable (VBytes xb) = false ->
  let same := bool_decide (bytes_at (mem st2) xb = bytes_at (mem st2) yb) in
  (op = EQL ->
   executeExpr t (BinaryExpr X op Y) data st = (Ok (VBool same), st2))
  /\ (op = NEQ ->
      executeExpr t (BinaryExpr X op Y) data st = (Ok (VBool (negb same)), st2)).
Proof.
  intros HX HY Hc same.
  assert (Heq : equal (mem st2) (VBytes xb) (VBytes yb) = (same, true)).
  { unfold equal. cbn [Kind_of]. destruct (decide (KSlice = Invalid)); [discriminate|].
    rewrite Hc. f_equal. unfold bytes_Equal, same.
    destruct (bytes_Compare (bytes_at (mem st2) xb) (bytes_at (mem st2) yb)) eqn:Hcmp.
    - apply bytes_Compare_eq in Hcmp. now rewrite bool_decide_eq_true_2.
    - rewrite bool_decide_eq_false_2; [reflexivity|].
      intros Hs. apply bytes_Compare_eq in Hs. congruence.
    - rewrite bool_decide_eq_false_2; [reflexivity|].
      intros Hs. apply bytes_Compare_eq in Hs. congruence. }
  split; intros ->; cbn [executeExpr]; unfold mapErr, executeBinaryExpr, bind;
    rewrite HX, HY; cbn [Kind_of];
    (destruct (decide (KSlice = KSlice)) as [_|Hn]; [|contradiction]);
    unfold readH; rewrite Heq; reflexivity.
Qed.

(** X21: A failure inside the argument of a left-arrow function comes back
    as an error of the child template, a panic included, and an argument
    that is not a string is rejected; the function is not run. *)
Theorem arrow_argument_failures_are_contained
    (t : Template) (Fun a : Expr) (data : value) (st st1 st2 : state) (f : value) :
  executeExpr t Fun data st = (Ok f, st1) ->
  implementsFunc f = true ->
  (forall e, executeExpr (reserialising a) a data st1 = (Err e, st2) ->
     executeExpr t (LeftArrowExpr Fun (Some a)) data st
     = (Err (wrapError "failed to execute: " e), st2))
  /\ (forall p, executeExpr (reserialising a) a data st1 = (Panic p, st2) ->
        executeExpr t (LeftArrowExpr Fun (Some a)) data st
        = (Err (errorString ("failed to execute: panic: " +:+ p)), st2))
  /\ (forall v, executeExpr (reserialising a) a data st1 = (Ok v, st2) ->
        (forall s, v <> VString s) ->
        executeExpr t (LeftArrowExpr Fun (Some a)) data st
        = (Err (errorString ("expect string but got " +:+ TypeOf v)), st2)).
Proof.
  intros HF Himpl. cbn [executeExpr]. unfold executeLeftArrowExpr, bind.
  rewrite HF, Himpl.
  unfold executeLeftArrowExprArg, Execute_with, recovered, mapErr. cbn [expr].
  fold (reserialising a).
  split; [|split].
  - intros e ->. reflexivity.
  - intros p ->. reflexivity.
  - intros v -> Hns. destruct v; try reflexivity. now destruct (Hns s).
Qed.

End WithHost.

(** ** The properties on the small host *)

#[local] Existing Instance demoHost.

Lemma unsigned_arithmetic_is_checked_witness :
  Execute (template (BinaryExpr (Ident "u") ADD (Ident "u"))) demoData emptyState
  = (Ok (VUint Uint64 6), emptyState).
Proof.
  destruct (unsigned_arithmetic_is_checked (H := demoHost)
              (template (BinaryExpr (Ident "u") ADD (Ident "u")))
              (Ident "u") ADD (Ident "u") demoData emptyState emptyState emptyState
              (VUint Uint 3) (VUint Uint 3) Uint eq_refl eq_refl eq_refl eq_refl eq_refl)
    as (a & b & Ha & Hb & _ & _ & Hadd & _).
  vm_compute in Ha, Hb. injection Ha as <-. injection Hb as <-.
  rewrite (Hadd eq_refl). reflexivity.
Defined.

Lemma signed_division_truncates_witness :
  Execute (template (BinaryExpr (Ident "min") QUO (Ident "m1"))) edgeData emptyState
  = (Ok (VInt Int64 MinInt64), emptyState).
Proof.
  destruct (signed_division_truncates (H := demoHost)
              (template (BinaryExpr (Ident "min") QUO (Ident "m1")))
              (Ident "min") QUO (Ident "m1") edgeData emptyState emptyState emptyState
              (VInt Int64 MinInt64) (VInt Int64 (-1)) Int64
              eq_refl eq_refl eq_refl eq_refl eq_refl)
    as (a & b & Ha & Hb & Hquo & _).
  vm_compute in Ha, Hb. injection Ha as <-. injection Hb as <-.
  rewrite (Hquo eq_refl); [reflexivity|discriminate].
Defined.

Lemma signed_negation_is_checked_witness :
  executeExpr (template (BadExpr "")) (UnaryExpr SUB (Ident "min")) edgeData emptyState
  = (Err (errorString "-(-9223372036854775808) overflows int64"), emptyState).
Proof.
  destruct (signed_negation_is_checked (H := demoHost) (template (BadExpr ""))
              (Ident "min") edgeData emptyState emptyState
              (VInt Int64 MinInt64) Int64 MinInt64 eq_refl eq_refl) as [Hmin _].
  exact (Hmin eq_refl).
Defined.

Lemma unsigned_negation_is_checked_witness :
  executeExpr (template (BadExpr "")) (UnaryExpr SUB (Ident "u")) demoData emptyState
  = (Ok (VInt Int (-3)), emptyState).
Proof.
  destruct (unsigned_negation_is_checked (H := demoHost) (template (BadExpr ""))
              (Ident "u") demoData emptyState emptyState
              (VUint Uint 3) Uint 3 eq_refl eq_refl) as [Hneg _].
  exact Hneg.
Defined.

Lemma unary_operators_reject_defined_types_witness :
  executeExpr (template (BadExpr "")) (UnaryExpr SUB (Ident "d")) edgeData emptyState
  = (Err (errorString "unknown operation: operator - not defined on time.Duration"),
     emptyState).
Proof.
  apply (unary_operators_reject_defined_types (H := demoHost) (template (BadExpr ""))
           SUB (Ident "d") edgeData emptyState emptyState "time.Duration" (VInt Int64 5)).
  - reflexivity.
  - discriminate.
Defined.

Lemma mismatched_kinds_are_rejected_witness :
  executeExpr (template (BadExpr "")) (BinaryExpr (Ident "one") EQL (Ident "u"))
    demoData emptyState
  = (Err (wrapError "invalid operation"
            (errorString "1 == 3: mismatched types int64 and uint")), emptyState).
Proof.
  apply (mismatched_kinds_are_rejected (H := demoHost) (template (BadExpr ""))
           (Ident "one") EQL (Ident "u") demoData emptyState emptyState emptyState
           (VInt Int64 1) (VUint Uint 3)).
  - reflexivity.
  - reflexivity.
  - discriminate.
Defined.

Lemma nil_operands_witness :
  executeExpr (template (BadExpr "")) (BinaryExpr (Ident "nothing") EQL (Ident "nothing"))
    edgeData emptyState
  = (Ok (VBool true), emptyState).
Proof.
  apply (nil_operands (H := demoHost) (template (BadExpr ""))
           (Ident "nothing") EQL (Ident "nothing") edgeData
           emptyState emptyState emptyState VNil VNil); reflexivity.
Defined.

Lemma conditional_evaluates_one_branch_witness :
  executeExpr (template (BadExpr ""))
    (ConditionalExpr (Ident "yes") (Ident "one") (Ident "missing")) demoData emptyState
  = (Ok (VInt Int64 1), emptyState).
Proof.
  destruct (conditional_evaluates_one_branch (H := demoHost) (template (BadExpr ""))
              (Ident "yes") (Ident "one") (Ident "missing") demoData
              emptyState emptyState (VBool true) eq_refl) as [Htrue _].
  rewrite (Htrue eq_refl). reflexivity.
Defined.

Lemma sharedP_wf : slice_wf (mem sharedState) sharedP.
Proof. exists ["a"%char; "b"%char]. split; [reflexivity|]. cbn. lia. Qed.

Lemma sharedQ_wf : slice_wf (mem sharedState) sharedQ.
Proof. exists ["a"%char; "b"%char]. split; [reflexivity|]. cbn. lia. Qed.

Lemma bytes_concatenation_witness :
  exists (r : slice) (st3 : state),
    executeBinaryExpr executeExpr (template (BadExpr "")) (Ident "q") ADD (Ident "p")
      sharedData sharedState = (Ok (VBytes r), st3)
    /\ bytes_at (mem st3) r = ["a"%char; "b"%char; "a"%char].
Proof.
  destruct (bytes_concatenation (H := demoHost) (template (BadExpr ""))
              (Ident "q") (Ident "p") sharedData sharedState sharedState sharedState
              sharedQ sharedP eq_refl eq_refl sharedQ_wf sharedP_wf)
    as (r & st3 & Hexec & Hbytes & _).
  exists r, st3. split; [exact Hexec|]. rewrite Hbytes. reflexivity.
Defined.

Lemma bytes_append_frame_witness :
  bytes_at (mem (snd (executeBinaryExpr executeExpr (template (BadExpr ""))
                        (Ident "q") ADD (Ident "p") sharedData sharedState))) sharedQ
  = ["a"%char; "b"%char].
Proof.
  rewrite (bytes_append_frame (H := demoHost) (template (BadExpr ""))
             (Ident "q") (Ident "p") sharedData sharedState sharedState sharedState
             (snd (executeBinaryExpr executeExpr (template (BadExpr ""))
                     (Ident "q") ADD (Ident "p") sharedData sharedState))
             sharedQ sharedP sharedQ
             (fst (executeBinaryExpr executeExpr (template (BadExpr ""))
                     (Ident "q") ADD (Ident "p") sharedData sharedState))
             eq_refl eq_refl sharedQ_wf sharedP_wf sharedQ_wf).
  - reflexivity.
  - reflexivity.
  - right. right. right. cbn. lia.
Defined.

Lemma reserialised_parameter_is_text_witness :
  exists s,
    fst (executeExpr (reserialising (BadExpr "")) (ParameterExpr (Some (Ident "one")) false)
           demoData emptyState) = Ok (VString s).
Proof.
  destruct (reserialised_parameter_is_text (H := demoHost) (reserialising (BadExpr ""))
              (Some (Ident "one")) false demoData emptyState emptyState
              (VString "1") eq_refl eq_refl) as [s Hs].
  exists s. rewrite <- Hs. reflexivity.
Defined.

Lemma stashed_function_stays_witness :
  stash_of (snd (Execute (template (Ident "one")) demoData
                   {| mem := []; argFuncs := Some (<["func-0" := VFunc "helper"]> ∅) |}))
    !! "func-0" = Some (VFunc "helper").
Proof.
  assert (Hrun : executeExpr (reserialising (BadExpr ""))
                   (ParameterExpr (Some (Ident "f")) false) demoData emptyState
                 = (Ok (VString "{{func-0}}"),
                    {| mem := []; argFuncs := Some (<["func-0" := VFunc "helper"]> ∅) |})).
  { reflexivity. }
  destruct (stashed_function_stays (H := demoHost) (reserialising (BadExpr ""))
              (Ident "f") false demoData emptyState emptyState
              {| mem := []; argFuncs := Some (<["func-0" := VFunc "helper"]> ∅) |}
              (VFunc "helper") (VString "{{func-0}}")
              eq_refl stash_wf_empty eq_refl eq_refl Hrun) as [_ Hlater].
  exact (Hlater (template (Ident "one")) demoData _ _ eq_refl).
Defined.

Lemma arity_is_checked_first_witness :
  executeExpr (template (BadExpr "")) (CallExpr (Ident "f") [Ident "missing"])
    demoData emptyState
  = (Err (errorString "expected function argument number is 0 but specified 1 arguments"),
     emptyState).
Proof.
  destruct (arity_is_checked_first (H := demoHost) (template (BadExpr ""))
              (Ident "f") [Ident "missing"] demoData emptyState emptyState (VFunc "helper"))
    as (_ & Hfixed & _).
  - intros X Sel Heq. discriminate Heq.
  - reflexivity.
  - apply Hfixed; [reflexivity|reflexivity|]. cbn. lia.
Defined.

Lemma method_call_on_nil_panics_witness :
  Execute (template (CallExpr (SelectorExpr (Ident "nothing") "String") []))
    edgeData emptyState
  = (Err (errorString
            "failed to execute: panic: reflect: call of reflect.Value.Type on zero Value"),
     emptyState).
Proof.
  destruct (method_call_on_nil_panics (H := demoHost)
              (template (CallExpr (SelectorExpr (Ident "nothing") "String") []))
              (Ident "nothing") "String" [] edgeData emptyState emptyState VNil
              (errorString "cannot look up .String") eq_refl eq_refl eq_refl) as [_ Hexec].
  exact (Hexec eq_refl).
Defined.

Lemma arguments_have_the_required_types_witness :
  exists added,
    [VInt Int64 1] = ([] ++ added)%list /\ length added = 1%nat.
Proof.
  destruct (arguments_have_the_required_types (H := demoHost) (template (BadExpr ""))
              "f" {| In := ["int64"]; IsVariadic := false |} [] [BasicLit INT "1"]
              demoData emptyState emptyState [VInt Int64 1] eq_refl)
    as (added & Hrs & Hlen & _).
  exists added. split; assumption.
Defined.

Lemma Execute_errors_are_labelled_witness :
  exists rest,
    Error (wrapError "failed to execute: " (errNotDefined ".missing not found"))
    = "failed to execute: " +:+ rest.
Proof.
  destruct (Execute_errors_are_labelled (H := demoHost) (template (Ident "missing"))
              demoData emptyState) as [_ Herr].
  exact (Herr _ emptyState eq_refl).
Defined.

Lemma addIndent_keeps_the_lines_witness :
  GoStrings.Split (addIndent (reserialising (BadExpr "")) ("a" +:+ nl +:+ nl +:+ "b") "- ") LF
  = ["a"; ""; "  b"].
Proof.
  destruct (addIndent_keeps_the_lines (reserialising (BadExpr ""))
              ("a" +:+ nl +:+ nl +:+ "b") "- ") as (Hlines & _).
  - reflexivity.
  - reflexivity.
  - discriminate.
  - rewrite Hlines. reflexivity.
Defined.

Lemma integer_literals_fit_int64_witness :
  exists n : Z, VInt Int64 31 = VInt Int64 n /\ fits n.
Proof.
  destruct (integer_literals_fit_int64 (H := demoHost) (template (BadExpr "")) "0x1F"
              VNil emptyState emptyState (VInt Int64 31) eq_refl)
    as (n & Hv & Hfits & _).
  exists n. split; assumption.
Defined.

Lemma normal_mode_never_stashes_witness :
  argFuncs (snd (Execute (template (ParameterExpr (Some (Ident "f")) false))
                   demoData emptyState))
  = Some ∅.
Proof.
  rewrite (normal_mode_never_stashes (H := demoHost)
             (template (ParameterExpr (Some (Ident "f")) false)) demoData emptyState
             (snd (Execute (template (ParameterExpr (Some (Ident "f")) false))
                     demoData emptyState))
             (fst (Execute (template (ParameterExpr (Some (Ident "f")) false))
                     demoData emptyState))); reflexivity.
Defined.

Lemma byte_slices_are_equal_by_content_witness :
  executeExpr (template (BadExpr "")) (BinaryExpr (Ident "p") EQL (Ident "q"))
    sharedData sharedState
  = (Ok (VBool false), sharedState).
Proof.
  destruct (byte_slices_are_equal_by_content (H := demoHost) (template (BadExpr ""))
              (Ident "p") EQL (Ident "q") sharedData sharedState sharedState sharedState
              sharedP sharedQ eq_refl eq_refl eq_refl) as [Heql _].
  rewrite (Heql eq_refl). reflexivity.
Defined.

Lemma arrow_argument_failures_are_contained_witness :
  executeExpr (H := arrowHost) (template (BadExpr ""))
    (LeftArrowExpr (Ident "f") (Some (Ident "missing"))) demoData emptyState
  = (Err (wrapError "failed to execute: " (errNotDefined ".missing not found")),
     emptyState).
Proof.
  destruct (arrow_argument_failures_are_contained (H := arrowHost) (template (BadExpr ""))
              (Ident "f") (Ident "missing") demoData emptyState emptyState emptyState
              (VFunc "helper") eq_refl eq_refl) as [Herr _].
  exact (Herr _ eq_refl).
Defined.

End TemplateMoreProps.
